(** * sga assemble: the contig-assembly pipeline and its option parser

    A shallow embedding of [assemble.cpp] (the [assemble] subprogram of
    SGA): the option namespace [opt], [parseAssembleOptions],
    [assemble] and [assembleMain].

    The string graph, its visitors, the ASQG reader and the C++ stream
    extractors live in other translation units; they are taken as an
    interface ([StringGraphAPI], [Platform]).  Every call that
    [assemble] makes on [pGraph] is recorded, in program order, in a
    log, so that the order of the pipeline stages can be stated and
    proved. *)

From Stdlib Require Import String Ascii ZArith Bool Arith Lia List.
From Stdlib Require Import Decimal DecimalString DecimalZ.
Import ListNotations.
Open Scope string_scope.
Open Scope Z_scope.
Open Scope list_scope.

(** ** Text helpers *)

Definition nl : string := String (ascii_of_nat 10) EmptyString.

Definition empty (s : string) : bool :=
  match s with EmptyString => true | String _ _ => false end.

(** ** namespace opt *)

Module opt.

Record t : Type := mk {
  verbose : Z;                  (* unsigned int *)
  asqgFile : string;
  prefix : string;
  outFile : string;
  debugFile : string;
  asqgOutfile : string;
  minOverlap : Z;               (* unsigned int *)
  bEdgeStats : bool;
  bCorrectReads : bool;
  bRemodelGraph : bool;
  bSmoothGraph : bool;
  resolveSmallRepeatLen : Z;    (* int *)
  numTrimRounds : Z;            (* int *)
  numBubbleRounds : Z;          (* int *)
  bValidate : bool;
  bExact : bool
}.

(** The values of the statics when the process starts: the explicit
    initialisers of the source, zero-initialisation for the rest. *)
Definition statics : t :=
  {| verbose := 0; asqgFile := ""; prefix := ""; outFile := "";
     debugFile := ""; asqgOutfile := ""; minOverlap := 0;
     bEdgeStats := false; bCorrectReads := false;
     bRemodelGraph := false; bSmoothGraph := false;
     resolveSmallRepeatLen := -1; numTrimRounds := 0;
     numBubbleRounds := 0; bValidate := false; bExact := false |}.

Definition set_verbose v o :=
  mk v (asqgFile o) (prefix o) (outFile o) (debugFile o) (asqgOutfile o)
     (minOverlap o) (bEdgeStats o) (bCorrectReads o) (bRemodelGraph o)
     (bSmoothGraph o) (resolveSmallRepeatLen o) (numTrimRounds o)
     (numBubbleRounds o) (bValidate o) (bExact o).
Definition set_asqgFile v o :=
  mk (verbose o) v (prefix o) (outFile o) (debugFile o) (asqgOutfile o)
     (minOverlap o) (bEdgeStats o) (bCorrectReads o) (bRemodelGraph o)
     (bSmoothGraph o) (resolveSmallRepeatLen o) (numTrimRounds o)
     (numBubbleRounds o) (bValidate o) (bExact o).
Definition set_prefix v o :=
  mk (verbose o) (asqgFile o) v (outFile o) (debugFile o) (asqgOutfile o)
     (minOverlap o) (bEdgeStats o) (bCorrectReads o) (bRemodelGraph o)
     (bSmoothGraph o) (resolveSmallRepeatLen o) (numTrimRounds o)
     (numBubbleRounds o) (bValidate o) (bExact o).
Definition set_outFile v o :=
  mk (verbose o) (asqgFile o) (prefix o) v (debugFile o) (asqgOutfile o)
     (minOverlap o) (bEdgeStats o) (bCorrectReads o) (bRemodelGraph o)
     (bSmoothGraph o) (resolveSmallRepeatLen o) (numTrimRounds o)
     (numBubbleRounds o) (bValidate o) (bExact o).
Definition set_debugFile v o :=
  mk (verbose o) (asqgFile o) (prefix o) (outFile o) v (asqgOutfile o)
     (minOverlap o) (bEdgeStats o) (bCorrectReads o) (bRemodelGraph o)
     (bSmoothGraph o) (resolveSmallRepeatLen o) (numTrimRounds o)
     (numBubbleRounds o) (bValidate o) (bExact o).
Definition set_asqgOutfile v o :=
  mk (verbose o) (asqgFile o) (prefix o) (outFile o) (debugFile o) v
     (minOverlap o) (bEdgeStats o) (bCorrectReads o) (bRemodelGraph o)
     (bSmoothGraph o) (resolveSmallRepeatLen o) (numTrimRounds o)
     (numBubbleRounds o) (bValidate o) (bExact o).
Definition set_minOverlap v o :=
  mk (verbose o) (asqgFile o) (prefix o) (outFile o) (debugFile o)
     (asqgOutfile o) v (bEdgeStats o) (bCorrectReads o) (bRemodelGraph o)
     (bSmoothGraph o) (resolveSmallRepeatLen o) (numTrimRounds o)
     (numBubbleRounds o) (bValidate o) (bExact o).
Definition set_bEdgeStats v o :=
  mk (verbose o) (asqgFile o) (prefix o) (outFile o) (debugFile o)
     (asqgOutfile o) (minOverlap o) v (bCorrectReads o) (bRemodelGraph o)
     (bSmoothGraph o) (resolveSmallRepeatLen o) (numTrimRounds o)
     (numBubbleRounds o) (bValidate o) (bExact o).
Definition set_bCorrectReads v o :=
  mk (verbose o) (asqgFile o) (prefix o) (outFile o) (debugFile o)
     (asqgOutfile o) (minOverlap o) (bEdgeStats o) v (bRemodelGraph o)
     (bSmoothGraph o) (resolveSmallRepeatLen o) (numTrimRounds o)
     (numBubbleRounds o) (bValidate o) (bExact o).
Definition set_bRemodelGraph v o :=
  mk (verbose o) (asqgFile o) (prefix o) (outFile o) (debugFile o)
     (asqgOutfile o) (minOverlap o) (bEdgeStats o) (bCorrectReads o) v
     (bSmoothGraph o) (resolveSmallRepeatLen o) (numTrimRounds o)
     (numBubbleRounds o) (bValidate o) (bExact o).
Definition set_bSmoothGraph v o :=
  mk (verbose o) (asqgFile o) (prefix o) (outFile o) (debugFile o)
     (asqgOutfile o) (minOverlap o) (bEdgeStats o) (bCorrectReads o)
     (bRemodelGraph o) v (resolveSmallRepeatLen o) (numTrimRounds o)
     (numBubbleRounds o) (bValidate o) (bExact o).
Definition set_resolveSmallRepeatLen v o :=
  mk (verbose o) (asqgFile o) (prefix o) (outFile o) (debugFile o)
     (asqgOutfile o) (minOverlap o) (bEdgeStats o) (bCorrectReads o)
     (bRemodelGraph o) (bSmoothGraph o) v (numTrimRounds o)
     (numBubbleRounds o) (bValidate o) (bExact o).
Definition set_numTrimRounds v o :=
  mk (verbose o) (asqgFile o) (prefix o) (outFile o) (debugFile o)
     (asqgOutfile o) (minOverlap o) (bEdgeStats o) (bCorrectReads o)
     (bRemodelGraph o) (bSmoothGraph o) (resolveSmallRepeatLen o) v
     (numBubbleRounds o) (bValidate o) (bExact o).
Definition set_numBubbleRounds v o :=
  mk (verbose o) (asqgFile o) (prefix o) (outFile o) (debugFile o)
     (asqgOutfile o) (minOverlap o) (bEdgeStats o) (bCorrectReads o)
     (bRemodelGraph o) (bSmoothGraph o) (resolveSmallRepeatLen o)
     (numTrimRounds o) v (bValidate o) (bExact o).
Definition set_bValidate v o :=
  mk (verbose o) (asqgFile o) (prefix o) (outFile o) (debugFile o)
     (asqgOutfile o) (minOverlap o) (bEdgeStats o) (bCorrectReads o)
     (bRemodelGraph o) (bSmoothGraph o) (resolveSmallRepeatLen o)
     (numTrimRounds o) (numBubbleRounds o) v (bExact o).
Definition set_bExact v o :=
  mk (verbose o) (asqgFile o) (prefix o) (outFile o) (debugFile o)
     (asqgOutfile o) (minOverlap o) (bEdgeStats o) (bCorrectReads o)
     (bRemodelGraph o) (bSmoothGraph o) (resolveSmallRepeatLen o)
     (numTrimRounds o) (numBubbleRounds o) (bValidate o) v.

End opt.

(** ** What the other translation units provide *)

(** [config.h], the build flags and the [istringstream] extractors.
    [extract_string txt old] is the value of a [std::string] variable
    that held [old] after [arg >> variable] on a stream over [txt];
    likewise for [unsigned int] and [int]. *)
Class Platform : Type := {
  PACKAGE_NAME : string;
  PACKAGE_VERSION : string;
  PACKAGE_BUGREPORT : string;
  VALIDATE : bool;                       (* #ifdef VALIDATE *)
  extract_string : string -> string -> string;
  extract_uint : string -> Z -> Z;
  extract_int : string -> Z -> Z
}.

(** The visitor functors that [assemble] declares or constructs. *)
Inductive Visitor : Type :=
| trVisit | statsVisit | remodelVisit | edgeStatsVisit | trimVisit
| bubbleVisit | bubbleEdgeVisit | containVisit | errorCorrectVisit
| validationVisit | peResolveVisit
| debugGraphVisit (debugFile : string)     (* SGDebugGraphCompareVisitor *)
| fastaVisitor (file : string)             (* SGFastaVisitor *)
| smoothingVisit
| smallRepeatVisit (len : Z).              (* SGSmallRepeatResolveVisitor *)

(** The [StringGraph] member functions that [assemble] calls. *)
Inductive Method : Type :=
| setExactMode (b : bool)
| printMemSize
| visit (v : Visitor)
| hasContainment
| writeASQG (file : string)
| simplify
| validate
| renameVertices (pre : string)
| writeDot (file : string).

(** The string graph as [assemble] sees it.  [Graph] is the state
    behind [pGraph] together with the state kept by the visitor
    functors; [do_visit v g] is the graph after [pGraph->visit(v)] and
    the "graph changed" flag that the call returns.  [asqgOverlaps],
    [overlapLength] and [buildGraph] describe the ASQG reader: the
    overlap (edge) records of a file, the length of an overlap, and
    the graph made of the file's vertices and a list of overlaps. *)
Class StringGraphAPI : Type := {
  Graph : Type;
  Overlap : Type;
  overlapLength : Overlap -> N;
  asqgOverlaps : string -> list Overlap;
  buildGraph : string -> list Overlap -> bool -> Graph;
  do_visit : Visitor -> Graph -> Graph * bool;
  do_hasContainment : Graph -> bool;
  do_simplify : Graph -> Graph;
  do_setExactMode : bool -> Graph -> Graph;
  do_renameVertices : string -> Graph -> Graph;
  do_validate : Graph -> Graph
}.

(** ** A small instance of the interface

    Used to run the pipeline on concrete inputs.  A graph is a pair:
    the number of vertices flagged contained and the number of small
    repeats still to resolve.  The containment visitor removes one
    contained vertex, remodelling brings one back, the small-repeat
    visitor resolves one repeat. *)
Module Example.

(** The value of a run of decimal digits at the head of [s]. *)
Fixpoint digits (s : string) (acc : Z) : Z :=
  match s with
  | EmptyString => acc
  | String ch s' =>
      let d := Z.of_nat (nat_of_ascii ch) - 48 in
      if (0 <=? d) && (d <=? 9) then digits s' (10 * acc + d) else acc
  end.

Definition number (s : string) : Z :=
  match s with
  | String "-" s' => - digits s' 0
  | _ => digits s 0
  end.

Definition platform : Platform :=
  {| PACKAGE_NAME := "sga";
     PACKAGE_VERSION := "0.1";
     PACKAGE_BUGREPORT := "js18@sanger.ac.uk";
     VALIDATE := false;
     extract_string := fun txt old => txt;
     extract_uint := fun txt old => number txt mod 2 ^ 32;
     extract_int := fun txt old => number txt |}.

Definition graph_visit (v : Visitor) (g : nat * nat) : (nat * nat) * bool :=
  match v with
  | containVisit => ((Nat.pred (fst g), snd g), Nat.ltb 0 (fst g))
  | remodelVisit => ((S (fst g), snd g), true)
  | smallRepeatVisit _ => ((fst g, Nat.pred (snd g)), Nat.ltb 0 (snd g))
  | trimVisit => (g, true)
  | _ => (g, false)
  end.

Definition api : StringGraphAPI :=
  {| Graph := nat * nat;
     Overlap := N;
     overlapLength := fun ov => ov;
     asqgOverlaps := fun _ => [30; 45; 18]%N;
     buildGraph := fun _ ovs _ => (List.length ovs, 2%nat);
     do_visit := graph_visit;
     do_hasContainment := fun g => Nat.ltb 0 (fst g);
     do_simplify := fun g => g;
     do_setExactMode := fun _ g => g;
     do_renameVertices := fun _ g => g;
     do_validate := fun g => g |}.

End Example.

(** ** SearchHistory::HistoryItem *)

Module SearchHistory.

(** [struct HistoryItem { int pos; char base; }] *)
Record HistoryItem : Type := { pos : Z; base : ascii }.

(** [out << n] for an [int], in the default decimal format. *)
Definition put_int (n : Z) : string := NilZero.string_of_int (Z.to_int n).

(** [operator<<(std::ostream&, const HistoryItem&)]: the text sent to
    the stream, [out << hi.pos << "," << hi.base]. *)
Definition put (hi : HistoryItem) : string :=
  (put_int (pos hi) ++ "," ++ String (base hi) EmptyString)%string.

End SearchHistory.

(** ** An instance in which containment is never removed *)

Module Stuck.

Definition api : StringGraphAPI :=
  {| Graph := unit;
     Overlap := N;
     overlapLength := fun ov => ov;
     asqgOverlaps := fun _ => [];
     buildGraph := fun _ _ _ => tt;
     do_visit := fun _ g => (g, false);
     do_hasContainment := fun _ => true;
     do_simplify := fun g => g;
     do_setExactMode := fun _ g => g;
     do_renameVertices := fun _ g => g;
     do_validate := fun g => g |}.

End Stuck.

Section Assemble.

Context {P : Platform} {G : StringGraphAPI}.

(** Modelled from the spec: [SGUtil::loadASQG] is not among the
    sources.  The option text of [assemble] says that only overlaps of
    at least LEN are used, and the spec that sub-threshold overlaps
    are dropped: an overlap record of the file is kept when its length
    is at least [minOverlap]. *)
Definition loadASQG (file : string) (minOverlap : Z) (allowContainments : bool)
  : Graph :=
  buildGraph file
    (filter (fun ov => minOverlap <=? Z.of_N (overlapLength ov))
            (asqgOverlaps file))
    allowContainments.

(** ** The log *)

(** One entry per observable action, in program order.  A [Call]
    carries the graph on which the member function was invoked. *)
Inductive Event : Type :=
| Load (file : string) (minOverlap : Z) (allowContainments : bool)
| Call (m : Method) (g : Graph)
| Cout (s : string)
| Cerr (s : string)
| WarnOnce (s : string)
| ValidationWarning (s : string)
| DeleteGraph.

Record World : Type := { graph : Graph; log : list Event }.

(** The graph after a member function returns. *)
Definition after (m : Method) (g : Graph) : Graph :=
  match m with
  | setExactMode b => do_setExactMode b g
  | visit v => fst (do_visit v g)
  | simplify => do_simplify g
  | validate => do_validate g
  | renameVertices pre => do_renameVertices pre g
  | printMemSize | hasContainment | writeASQG _ | writeDot _ => g
  end.

(** ** A state monad with fuel *)

Inductive Res (A : Type) : Type :=
| Ok (a : A) (w : World)
| OutOfFuel (w : World).
Arguments Ok {A} a w.
Arguments OutOfFuel {A} w.

Definition M (A : Type) : Type := World -> Res A.

Definition ret {A} (a : A) : M A := fun w => Ok a w.

Definition bind {A B} (m : M A) (f : A -> M B) : M B :=
  fun w => match m w with
           | Ok a w' => f a w'
           | OutOfFuel w' => OutOfFuel w'
           end.

Definition world_of {A} (r : Res A) : World :=
  match r with Ok _ w => w | OutOfFuel w => w end.

Notation "x <- m ;; k" := (bind m (fun x => k))
  (at level 61, m at next level, right associativity).
Notation "m ;; k" := (bind m (fun _ => k))
  (at level 61, right associativity).

(** What a member function returns, for the two whose value the
    pipeline may test; the others are [void]. *)
Definition returned (m : Method) (g : Graph) : bool :=
  match m with
  | visit v => snd (do_visit v g)
  | hasContainment => do_hasContainment g
  | _ => false
  end.

(** [pGraph->m(...)]: log the call, update the graph, return the value. *)
Definition call (m : Method) : M bool :=
  fun w => Ok (returned m (graph w))
              {| graph := after m (graph w);
                 log := log w ++ [Call m (graph w)] |}.

Definition emit (e : Event) : M unit :=
  fun w => Ok tt {| graph := graph w; log := log w ++ [e] |}.

Definition cout (s : string) : M unit := emit (Cout s).

(** [if (b) { m }] *)
Definition when (b : bool) (m : M unit) : M unit :=
  if b then m else ret tt.

(** [while (cond) { body }]; [fuel] bounds the number of times the
    condition is evaluated. *)
Fixpoint while (fuel : nat) (cond : M bool) (body : M unit) : M unit :=
  match fuel with
  | O => fun w => OutOfFuel w
  | S fuel' =>
      b <- cond ;;
      if b then body ;; while fuel' cond body else ret tt
  end.

Fixpoint times (n : nat) (body : M unit) : M unit :=
  match n with
  | O => ret tt
  | S n' => body ;; times n' body
  end.

(** [int k = n; while (k-- > 0) body;] where [body] does not touch
    [k]: the body runs [n] times when [n] is positive and not at all
    otherwise (see [countdown_unfold]). *)
Definition countdown (n : Z) (body : M unit) : M unit :=
  times (Z.to_nat n) body.

(** ** assemble() *)

(** Lines 110-158: exact mode, memory report, the debug-file
    comparison, edge statistics, the initial statistics. *)
Definition pre_assembly (o : opt.t) : M unit :=
  when (opt.bExact o) (call (setExactMode true) ;; ret tt) ;;
  call printMemSize ;;
  when (negb (empty (opt.debugFile o)))
    (cout ("Initial graph stats" ++ nl) ;;
     call (visit statsVisit) ;;
     call (visit (debugGraphVisit (opt.debugFile o))) ;;
     call (visit statsVisit) ;;
     ret tt) ;;
  when (opt.bEdgeStats o)
    (cout ("Computing edge stats" ++ nl) ;;
     call (visit edgeStatsVisit) ;;
     ret tt) ;;
  cout ("Initial graph stats" ++ nl) ;;
  call (visit statsVisit) ;;
  ret tt.

(** Lines 160-165. *)
Definition remove_containments (fuel : nat) : M unit :=
  cout ("Removing contained vertices" ++ nl) ;;
  while fuel (call hasContainment)
    (call (visit containVisit) ;; ret tt).

(** Lines 167-173. *)
Definition transitive_reduction : M unit :=
  cout ("Post-contain graph stats" ++ nl) ;;
  call (visit statsVisit) ;;
  cout ("Removing transitive edges" ++ nl) ;;
  call (visit trVisit) ;;
  ret tt.

(** Lines 178-188. *)
Definition validate_structure (o : opt.t) : M unit :=
  when (opt.bValidate o)
    (cout ("Validating graph structure" ++ nl) ;;
     call (visit validationVisit) ;;
     ret tt) ;;
  cout ("Pre-remodelling graph stats" ++ nl) ;;
  call (visit statsVisit) ;;
  ret tt.

(** Lines 190-199. *)
Definition correct_reads (o : opt.t) : M unit :=
  when (opt.bCorrectReads o)
    (cout ("Correcting reads" ++ nl) ;;
     call (visit errorCorrectVisit) ;;
     cout ("Writing corrected reads" ++ nl) ;;
     call (visit (fastaVisitor "correctedReads.fa")) ;;
     call (writeASQG "afterEC.asqg.gz") ;;
     ret tt).

(** Lines 201-217. *)
Definition remodel_graph (o : opt.t) (fuel : nat) : M unit :=
  when (opt.bRemodelGraph o)
    (cout ("Remodelling graph" ++ nl) ;;
     call (visit remodelVisit) ;;
     call (writeASQG "afterRM.asqg.gz") ;;
     while fuel (call hasContainment)
       (cout ("Removing contained reads" ++ nl) ;;
        call (visit containVisit) ;;
        ret tt) ;;
     call (visit trVisit) ;;
     cout ("After remodel graph stats: " ++ nl) ;;
     call (visit statsVisit) ;;
     ret tt).

(** Lines 219-226. *)
Definition trim (o : opt.t) : M unit :=
  when (opt.numTrimRounds o >? 0)
    (emit (WarnOnce "USING NAIVE TRIMMING") ;;
     cout ("Trimming bad vertices" ++ nl) ;;
     let numTrims := opt.numTrimRounds o in
     countdown numTrims (call (visit trimVisit) ;; ret tt)).

(** Lines 228-237. *)
Definition smooth (o : opt.t) : M unit :=
  when (opt.bSmoothGraph o)
    (cout (nl ++ "Performing variation smoothing" ++ nl) ;;
     let numSmooth := 4 in
     countdown numSmooth (call (visit smoothingVisit) ;; ret tt)).

(** Lines 239-248. *)
Definition resolve_small_repeats (o : opt.t) (fuel : nat) : M unit :=
  when (opt.resolveSmallRepeatLen o >=? 0)
    (let smallRepeatVisit_ := smallRepeatVisit (opt.resolveSmallRepeatLen o) in
     cout ("Resolving small repeats" ++ nl) ;;
     while fuel (call (visit smallRepeatVisit_)) (ret tt) ;;
     cout ("After small repeat resolve graph stats" ++ nl) ;;
     call (visit statsVisit) ;;
     ret tt).

(** Lines 250-262. *)
Definition write_postmod : M unit :=
  call (writeASQG "postmod.asqg.gz") ;;
  cout ("Pre-simplify graph stats" ++ nl) ;;
  call (visit statsVisit) ;;
  ret tt.

(** Lines 269-279. *)
Definition simplify_and_pop (o : opt.t) : M unit :=
  call simplify ;;
  when (opt.numBubbleRounds o >? 0)
    (cout (nl ++ "Performing bubble removal" ++ nl) ;;
     let numPops := opt.numBubbleRounds o in
     countdown numPops (call (visit bubbleVisit) ;; ret tt) ;;
     call simplify ;;
     ret tt).

(** Lines 281-301. *)
Definition write_results (o : opt.t) : M unit :=
  cout (nl ++ "Final graph stats" ++ nl) ;;
  call (visit statsVisit) ;;
  when VALIDATE
    (emit (ValidationWarning "SGA/assemble") ;;
     call validate ;;
     ret tt) ;;
  call (renameVertices "contig-") ;;
  call (writeDot "final.dot") ;;
  call (visit (fastaVisitor (opt.outFile o))) ;;
  when (negb (empty (opt.asqgOutfile o)))
    (call (writeASQG (opt.asqgOutfile o)) ;; ret tt) ;;
  emit DeleteGraph.

(** The body of [assemble] after the graph is loaded. *)
Definition pipeline (o : opt.t) (fuel : nat) : M unit :=
  pre_assembly o ;;
  remove_containments fuel ;;
  transitive_reduction ;;
  validate_structure o ;;
  correct_reads o ;;
  remodel_graph o fuel ;;
  trim o ;;
  smooth o ;;
  resolve_small_repeats o fuel ;;
  write_postmod ;;
  simplify_and_pop o ;;
  write_results o.

(** [void assemble()], reading the options from [o]. *)
Definition assemble (o : opt.t) (fuel : nat) : Res unit :=
  let pGraph := loadASQG (opt.asqgFile o) (opt.minOverlap o) true in
  pipeline o fuel
    {| graph := pGraph;
       log := [Load (opt.asqgFile o) (opt.minOverlap o) true] |}.

(** ** Getopt *)

Definition SUBPROGRAM : string := "assemble".

Definition ASSEMBLE_VERSION_MESSAGE : string :=
  SUBPROGRAM ++ " Version " ++ PACKAGE_VERSION ++ nl ++
  "Written by Jared Simpson." ++ nl ++
  nl ++
  "Copyright 2009 Wellcome Trust Sanger Institute" ++ nl.

Definition ASSEMBLE_USAGE_MESSAGE : string :=
  "Usage: " ++ PACKAGE_NAME ++ " " ++ SUBPROGRAM ++ " [OPTION] ... ASQGFILE" ++ nl ++
  "Create contigs from the assembly graph ASQGFILE." ++ nl ++
  nl ++
  "  -v, --verbose                        display verbose output" ++ nl ++
  "      --help                           display this help and exit" ++ nl ++
  "      -o, --out=FILE                   write the contigs to FILE (default: contigs.fa)" ++ nl ++
  "      -m, --min-overlap=LEN            only use overlaps of at least LEN. This can be used to filter" ++ nl ++
  "                                       the overlap set so that the overlap step only needs to be run once." ++ nl ++
  "      -b, --bubble=N                   perform N bubble removal steps" ++ nl ++
  "      -s, --smooth                     perform variation smoothing algorithm" ++ nl ++
  "      -t, --trim=N                     trim terminal branches using N rounds" ++ nl ++
  "      -r,--resolve-small=LEN           resolve small repeats using spanning overlaps when the difference between the shortest" ++ nl ++
  "                                       and longest overlap is greater than LEN" ++ nl ++
  "      -a, --asqg-outfile=FILE          write the final graph to FILE" ++ nl ++
  nl ++ "Report bugs to " ++ PACKAGE_BUGREPORT ++ nl ++ nl.

(** [enum { OPT_HELP = 1, OPT_VERSION, OPT_VALIDATE }], as values of
    [char c]. *)
Definition OPT_HELP : ascii := ascii_of_nat 1.
Definition OPT_VERSION : ascii := ascii_of_nat 2.
Definition OPT_VALIDATE : ascii := ascii_of_nat 3.

Definition EXIT_SUCCESS : Z := 0.
Definition EXIT_FAILURE : Z := 1.

(** [getopt_long] belongs to the C library.  A command line is given
    by what it reports for [shortopts] and [longopts]: the successive
    return values other than -1, each with the [optarg] it sets, and
    the operands [argv[optind] .. argv[argc-1]] left when it returns
    -1.  An option that is not in the tables, or a missing argument of
    one that needs it, is reported as '?'; [-m LEN] and
    [--min-overlap=LEN] are both reported as 'm'; the long-only
    options [--remodel], [--edge-stats], [--exact] as 'z', 'x', 'e'.
    [char] is taken to be signed, so that the comparison of [c] with
    -1 ends the loop. *)
Record GetoptItem : Type := { c : ascii; optarg : option string }.

Record CommandLine : Type := {
  options : list GetoptItem;
  operands : list string
}.

(** The effect of one turn of the option loop. *)
Inductive Turn : Type :=
| Continue (o : opt.t) (die : bool)
| ExitNow (status : Z) (e : Event).

(** The [switch (c)] of [parseAssembleOptions]; [arg] is the text of
    the [istringstream], [optarg] or the empty string. *)
Definition option_switch (it : GetoptItem) (o : opt.t) (die : bool) : Turn :=
  let arg := match optarg it with Some s => s | None => "" end in
  match c it with
  | "p"%char => Continue (opt.set_prefix (extract_string arg (opt.prefix o)) o) die
  | "o"%char => Continue (opt.set_outFile (extract_string arg (opt.outFile o)) o) die
  | "m"%char => Continue (opt.set_minOverlap (extract_uint arg (opt.minOverlap o)) o) die
  | "d"%char => Continue (opt.set_debugFile (extract_string arg (opt.debugFile o)) o) die
  | "?"%char => Continue o true
  | "v"%char => Continue (opt.set_verbose ((opt.verbose o + 1) mod 2 ^ 32) o) die
  | "b"%char => Continue (opt.set_numBubbleRounds (extract_int arg (opt.numBubbleRounds o)) o) die
  | "s"%char => Continue (opt.set_bSmoothGraph true o) die
  | "t"%char => Continue (opt.set_numTrimRounds (extract_int arg (opt.numTrimRounds o)) o) die
  | "a"%char => Continue (opt.set_asqgOutfile (extract_string arg (opt.asqgOutfile o)) o) die
  | "c"%char => Continue (opt.set_bCorrectReads true o) die
  | "r"%char => Continue (opt.set_resolveSmallRepeatLen
                            (extract_int arg (opt.resolveSmallRepeatLen o)) o) die
  | "z"%char => Continue (opt.set_bRemodelGraph true o) die
  | "x"%char => Continue (opt.set_bEdgeStats true o) die
  | "e"%char => Continue (opt.set_bExact true o) die
  | "003"%char => Continue (opt.set_bValidate true o) die
  | "001"%char => ExitNow EXIT_SUCCESS (Cout ASSEMBLE_USAGE_MESSAGE)
  | "002"%char => ExitNow EXIT_SUCCESS (Cout ASSEMBLE_VERSION_MESSAGE)
  | _ => Continue o die
  end.

(** [for (char c; (c = getopt_long(...)) != -1;) { switch ... }] *)
Fixpoint option_loop (items : list GetoptItem) (o : opt.t) (die : bool) : Turn :=
  match items with
  | [] => Continue o die
  | it :: items' =>
      match option_switch it o die with
      | Continue o' die' => option_loop items' o' die'
      | ExitNow status e => ExitNow status e
      end
  end.

Inductive Parse : Type :=
| Parsed (o : opt.t)
| Exit (status : Z) (out : list Event).

(** [void parseAssembleOptions(int argc, char** argv)], started with
    the options [o0]. *)
Definition parseAssembleOptions (cl : CommandLine) (o0 : opt.t) : Parse :=
  let o := opt.set_minOverlap 0 (opt.set_outFile "contigs.fa" o0) in
  match option_loop (options cl) o false with
  | ExitNow status e => Exit status [e]
  | Continue o die =>
      let left := Z.of_nat (List.length (operands cl)) in     (* argc - optind *)
      let '(die, err) :=
        if left <? 1 then
          (true, [Cerr (SUBPROGRAM ++ ": missing arguments" ++ nl)])
        else if left >? 1 then
          (true, [Cerr (SUBPROGRAM ++ ": too many arguments" ++ nl)])
        else (die, []) in
      if die then
        Exit EXIT_FAILURE
             (err ++ [Cerr ("Try `" ++ SUBPROGRAM
                              ++ " --help' for more information." ++ nl)])
      else
        Parsed (opt.set_asqgFile (hd "" (operands cl)) o)
  end.

(** How a call of [assembleMain] ends, with everything logged up to
    that point. *)
Inductive MainResult : Type :=
| Returns (code : Z) (tr : list Event)
| Exits (status : Z) (tr : list Event)
| Runs (tr : list Event).             (* still in a loop when fuel ran out *)

(** [int assembleMain(int argc, char** argv)].  The two [Timer]
    objects only report elapsed time and are left out. *)
Definition assembleMain (cl : CommandLine) (fuel : nat) : MainResult :=
  match parseAssembleOptions cl opt.statics with
  | Exit status out => Exits status out
  | Parsed o =>
      match assemble o fuel with
      | Ok _ w => Returns 0 (log w)
      | OutOfFuel w => Runs (log w)
      end
  end.

(** ** The calls of a run *)

(** A call as the pipeline sees it: [Did m] when the call is a
    statement of its own, [Got m b] when it is the condition of a loop
    and returned [b].  Only [hasContainment] and the visit of the
    small-repeat visitor are used as conditions. *)
Inductive Obs : Type :=
| Did (m : Method)
| Got (m : Method) (b : bool).

Definition tested (m : Method) : bool :=
  match m with
  | hasContainment | visit (smallRepeatVisit _) => true
  | _ => false
  end.

Definition observe (e : Event) : list Obs :=
  match e with
  | Call m g => [if tested m then Got m (returned m g) else Did m]
  | _ => []
  end.

(** The member-function calls of a log, in program order. *)
Definition calls (tr : list Event) : list Obs := flat_map observe tr.

(** The calls of [while (m()) { body }] when the body runs [k] times. *)
Definition loop_calls (m : Method) (body : list Obs) (k : nat) : list Obs :=
  concat (repeat (Got m true :: body) k) ++ [Got m false].

Definition rounds (n : Z) (m : Method) : list Obs :=
  repeat (Did m) (Z.to_nat n).

Arguments loop_calls : simpl never.
Arguments rounds : simpl never.

(** The calls of a complete run of [assemble] in which the first
    containment loop runs its body [k1] times, the one after
    remodelling [k2] times, and the small-repeat visitor reports a
    change [k3] times. *)
Definition pre_assembly_calls (o : opt.t) : list Obs :=
  (if opt.bExact o then [Did (setExactMode true)] else []) ++
  [Did printMemSize] ++
  (if negb (empty (opt.debugFile o))
   then [Did (visit statsVisit);
         Did (visit (debugGraphVisit (opt.debugFile o)));
         Did (visit statsVisit)]
   else []) ++
  (if opt.bEdgeStats o then [Did (visit edgeStatsVisit)] else []) ++
  [Did (visit statsVisit)].

Definition remove_containments_calls (k1 : nat) : list Obs :=
  loop_calls hasContainment [Did (visit containVisit)] k1.

Definition transitive_reduction_calls : list Obs :=
  [Did (visit statsVisit); Did (visit trVisit)].

Definition validate_structure_calls (o : opt.t) : list Obs :=
  (if opt.bValidate o then [Did (visit validationVisit)] else []) ++
  [Did (visit statsVisit)].

Definition correct_reads_calls (o : opt.t) : list Obs :=
  if opt.bCorrectReads o
  then [Did (visit errorCorrectVisit);
        Did (visit (fastaVisitor "correctedReads.fa"));
        Did (writeASQG "afterEC.asqg.gz")]
  else [].

Definition remodel_graph_calls (o : opt.t) (k2 : nat) : list Obs :=
  if opt.bRemodelGraph o
  then [Did (visit remodelVisit); Did (writeASQG "afterRM.asqg.gz")] ++
       loop_calls hasContainment [Did (visit containVisit)] k2 ++
       [Did (visit trVisit); Did (visit statsVisit)]
  else [].

Definition trim_calls (o : opt.t) : list Obs :=
  if opt.numTrimRounds o >? 0
  then rounds (opt.numTrimRounds o) (visit trimVisit)
  else [].

Definition smooth_calls (o : opt.t) : list Obs :=
  if opt.bSmoothGraph o then rounds 4 (visit smoothingVisit) else [].

Definition resolve_small_repeats_calls (o : opt.t) (k3 : nat) : list Obs :=
  if opt.resolveSmallRepeatLen o >=? 0
  then loop_calls (visit (smallRepeatVisit (opt.resolveSmallRepeatLen o))) [] k3 ++
       [Did (visit statsVisit)]
  else [].

Definition write_postmod_calls : list Obs :=
  [Did (writeASQG "postmod.asqg.gz"); Did (visit statsVisit)].

Definition simplify_and_pop_calls (o : opt.t) : list Obs :=
  [Did simplify] ++
  (if opt.numBubbleRounds o >? 0
   then rounds (opt.numBubbleRounds o) (visit bubbleVisit) ++ [Did simplify]
   else []).

Definition write_results_calls (o : opt.t) : list Obs :=
  [Did (visit statsVisit)] ++
  (if VALIDATE then [Did validate] else []) ++
  [Did (renameVertices "contig-"); Did (writeDot "final.dot");
   Did (visit (fastaVisitor (opt.outFile o)))] ++
  (if negb (empty (opt.asqgOutfile o))
   then [Did (writeASQG (opt.asqgOutfile o))] else []).

Definition pipeline_calls (o : opt.t) (k1 k2 k3 : nat) : list Obs :=
  pre_assembly_calls o ++
  remove_containments_calls k1 ++
  transitive_reduction_calls ++
  validate_structure_calls o ++
  correct_reads_calls o ++
  remodel_graph_calls o k2 ++
  trim_calls o ++
  smooth_calls o ++
  resolve_small_repeats_calls o k3 ++
  write_postmod_calls ++
  simplify_and_pop_calls o ++
  write_results_calls o.

(** [l] is an initial segment of [target]. *)
Definition prefix_of {A} (l target : list A) : Prop :=
  exists rest, target = l ++ rest.

(** [m] makes the calls of one of the lists in [S]: all of them when
    it returns, an initial segment when the fuel runs out. *)
Definition emits {A} (m : M A) (S : list Obs -> Prop) : Prop :=
  forall w, exists cs rest,
    S (cs ++ rest) /\
    calls (log (world_of (m w))) = calls (log w) ++ cs /\
    (forall a w', m w = Ok a w' -> rest = []).

(** Projections used in the statements: the calls of given member
    functions, whatever the way they are used. *)
Definition on_method (f : Method -> bool) (c : Obs) : bool :=
  match c with Did m | Got m _ => f m end.

Definition is_compaction : Obs -> bool :=
  on_method (fun m => match m with
                      | simplify | visit bubbleVisit => true
                      | _ => false
                      end).

Definition is_trim : Obs -> bool :=
  on_method (fun m => match m with visit trimVisit => true | _ => false end).

Definition is_smoothing : Obs -> bool :=
  on_method (fun m => match m with visit smoothingVisit => true | _ => false end).

Definition is_small_repeat : Obs -> bool :=
  on_method (fun m => match m with
                      | visit (smallRepeatVisit _) => true
                      | _ => false
                      end).

Definition is_reduction : Obs -> bool :=
  on_method (fun m => match m with
                      | hasContainment | visit containVisit | visit trVisit
                      | visit errorCorrectVisit | visit remodelVisit => true
                      | _ => false
                      end).

(** The condition on the events of a log: transitive reduction is
    applied to a graph without containment, and the containment
    visitor to a graph with one. *)
Definition ok_event (e : Event) : Prop :=
  match e with
  | Call (visit trVisit) g => do_hasContainment g = false
  | Call (visit containVisit) g => do_hasContainment g = true
  | _ => True
  end.

(** [keeps pre m post]: started on a graph that satisfies [pre] with a
    log of [ok_event]s, [m] leaves a log of [ok_event]s whether it
    returns or not, and a graph that satisfies [post] when it returns. *)
Definition keeps {A} (pre : Graph -> Prop) (m : M A)
                 (post : A -> Graph -> Prop) : Prop :=
  forall w, Forall ok_event (log w) -> pre (graph w) ->
    match m w with
    | Ok a w' => Forall ok_event (log w') /\ post a (graph w')
    | OutOfFuel w' => Forall ok_event (log w')
    end.

Definition any : Graph -> Prop := fun _ => True.
Definition any' {A} : A -> Graph -> Prop := fun _ _ => True.

Definition is_containment_loop : Obs -> bool :=
  on_method (fun m => match m with
                      | hasContainment | visit containVisit | visit trVisit => true
                      | _ => false
                      end).

(** The calls that change the graph (the stages of the pipeline),
    the structural checks, and the ASQG snapshots. *)
Definition stage_method (m : Method) : bool :=
  match m with
  | visit containVisit | visit trVisit | visit errorCorrectVisit
  | visit remodelVisit | visit trimVisit | visit smoothingVisit
  | visit (smallRepeatVisit _) | visit bubbleVisit | simplify => true
  | _ => false
  end.

Definition check_method (m : Method) : bool :=
  match m with
  | visit validationVisit | validate => true
  | _ => false
  end.

Definition snapshot_method (m : Method) : bool :=
  match m with
  | writeASQG _ => true
  | _ => false
  end.

Definition is_stage : Obs -> bool := on_method stage_method.
Definition is_check : Obs -> bool := on_method check_method.

Definition is_stage_or_check : Obs -> bool :=
  on_method (fun m => stage_method m || check_method m).

Definition is_stage_or_snapshot : Obs -> bool :=
  on_method (fun m => stage_method m || snapshot_method m ||
                      match m with renameVertices _ => true | _ => false end).

(** The weakest reading of "each stage checks its precondition by the
    validation pass": when a stage is applied, the validation has run
    at least once before.  [checked] tells whether it has. *)
Fixpoint stages_checked (checked : bool) (cs : list Obs) : bool :=
  match cs with
  | [] => true
  | c :: cs' =>
      if is_check c then stages_checked true cs'
      else if is_stage c then checked && stages_checked checked cs'
      else stages_checked checked cs'
  end.

(** [m] returns from every world. *)
Definition total {A} (m : M A) : Prop :=
  forall w, exists a w', m w = Ok a w'.

(** [m fuel] returns, with one and the same result, for every large
    enough [fuel]. *)
Definition settles (m : nat -> M unit) : Prop :=
  forall w, exists n w', forall fuel, (n <= fuel)%nat -> m fuel w = Ok tt w'.

(** Predicates on command lines. *)
Definition is_unknown (it : GetoptItem) : bool := Ascii.eqb (c it) "?".
Definition is_help_or_version (it : GetoptItem) : bool :=
  Ascii.eqb (c it) OPT_HELP || Ascii.eqb (c it) OPT_VERSION.
Definition is_min_overlap (it : GetoptItem) : bool := Ascii.eqb (c it) "m".

(** A usage error: no operand, more than one operand, or an option
    that [getopt_long] does not know. *)
Definition usage_error (cl : CommandLine) : bool :=
  (Z.of_nat (List.length (operands cl)) <? 1) ||
  (Z.of_nat (List.length (operands cl)) >? 1) ||
  existsb is_unknown (options cl).

(** What [parseAssembleOptions] writes before [exit(EXIT_FAILURE)]. *)
Definition usage_diagnostic (cl : CommandLine) : list Event :=
  (if Z.of_nat (List.length (operands cl)) <? 1
   then [Cerr (SUBPROGRAM ++ ": missing arguments" ++ nl)]
   else if Z.of_nat (List.length (operands cl)) >? 1
        then [Cerr (SUBPROGRAM ++ ": too many arguments" ++ nl)]
        else []) ++
  [Cerr ("Try `" ++ SUBPROGRAM ++ " --help' for more information." ++ nl)].

(** No graph work in a log: no load and no call on the graph. *)
Definition no_graph_work (tr : list Event) : bool :=
  forallb (fun e => match e with Load _ _ _ | Call _ _ => false | _ => true end)
          tr.

(** ** Further predicates on command lines and runs *)

(** [getopt_long] reports the option [ch] at least once, and how
    often. *)
Definition has (ch : ascii) (items : list GetoptItem) : bool :=
  existsb (fun it => Ascii.eqb (c it) ch) items.

Definition occurrences (ch : ascii) (items : list GetoptItem) : nat :=
  List.length (filter (fun it => Ascii.eqb (c it) ch) items).

(** The world in which [assemble] starts its pipeline. *)
Definition loaded (o : opt.t) : World :=
  {| graph := loadASQG (opt.asqgFile o) (opt.minOverlap o) true;
     log := [Load (opt.asqgFile o) (opt.minOverlap o) true] |}.

(** An event between the loading and the deletion of the graph. *)
Definition on_live_graph (e : Event) : Prop :=
  match e with
  | Load _ _ _ | DeleteGraph => False
  | _ => True
  end.

(** [m] appends events that satisfy [phi] and, when it returns, the
    events [tail] after them. *)
Definition ends_with {A} (phi : Event -> Prop) (tail : list Event) (m : M A)
  : Prop :=
  forall w,
    match m w with
    | Ok _ w' => exists ext, log w' = log w ++ ext ++ tail /\ Forall phi ext
    | OutOfFuel w' => exists ext, log w' = log w ++ ext /\ Forall phi ext
    end.

Definition is_output : Obs -> bool :=
  on_method (fun m => match m with
                      | visit (fastaVisitor _) | renameVertices _ | writeDot _
                      | simplify | visit bubbleVisit => true
                      | _ => false
                      end).

Definition is_preparation : Obs -> bool :=
  on_method (fun m => match m with
                      | setExactMode _ | printMemSize
                      | visit (debugGraphVisit _) | visit edgeStatsVisit
                      | visit containVisit | visit trVisit => true
                      | _ => false
                      end).

Definition is_correction : Obs -> bool :=
  on_method (fun m => match m with visit errorCorrectVisit => true | _ => false end).

Definition is_remodel : Obs -> bool :=
  on_method (fun m => match m with visit remodelVisit => true | _ => false end).

Definition is_declared_only : Obs -> bool :=
  on_method (fun m => match m with
                      | visit bubbleEdgeVisit | visit peResolveVisit => true
                      | _ => false
                      end).

(** None of the options that add a stage or a snapshot to the pipeline
    is on the command line. *)
Definition core_only (items : list GetoptItem) : bool :=
  negb (has "c" items || has "z" items || has "t" items || has "s" items ||
        has "r" items || has "b" items || has "a" items).

End Assemble.

Arguments Ok {G A} a w.
Arguments OutOfFuel {G A} w.
Arguments calls : simpl never.
Arguments loop_calls : simpl never.
Arguments rounds : simpl never.

(** ** Command lines and runs of the example instance *)

Module Run.

Definition asm := @assemble Example.platform Example.api.
Definition main := @assembleMain Example.platform Example.api.

Definition item (ch : ascii) (arg : option string) : GetoptItem :=
  {| c := ch; optarg := arg |}.

(** [sga assemble --bogus --help reads.asqg] *)
Definition bogus_help : CommandLine :=
  {| options := [item "?" None; item OPT_HELP None];
     operands := ["reads.asqg"] |}.

(** [sga assemble --bogus reads.asqg] *)
Definition bogus : CommandLine :=
  {| options := [item "?" None]; operands := ["reads.asqg"] |}.

(** [sga assemble -t 3 reads.asqg] *)
Definition plain : CommandLine :=
  {| options := [item "t" (Some "3")]; operands := ["reads.asqg"] |}.

End Run.

Module Run2.

(** [sga assemble -v -v --exact reads.asqg] *)
Definition verbose_exact : CommandLine :=
  {| options := [Run.item "v" None; Run.item "v" None; Run.item "e" None];
     operands := ["reads.asqg"] |}.

(** [sga assemble --bogus --version --help] *)
Definition bogus_version_help : CommandLine :=
  {| options := [Run.item "?" None] ++
                Run.item OPT_VERSION None :: [Run.item OPT_HELP None];
     operands := [] |}.

Definition item5A : SearchHistory.HistoryItem :=
  {| SearchHistory.pos := -12; SearchHistory.base := "A" |}.

End Run2.

Notation "x <- m ;; k" := (bind m (fun x => k))
  (at level 61, m at next level, right associativity).
Notation "m ;; k" := (bind m (fun _ => k))
  (at level 61, right associativity).

Section AssembleProofs.

Context {P : Platform} {G : StringGraphAPI}.

(** ** Basic facts *)

Lemma calls_app (a b : list Event) : calls (a ++ b) = calls a ++ calls b.
Proof. apply flat_map_app. Qed.

Lemma calls_snoc (l : list Event) (e : Event) :
  calls (l ++ [e]) = calls l ++ observe e.
Proof. rewrite calls_app. unfold calls at 2. cbn. now rewrite app_nil_r. Qed.

(** The counted loop satisfies the equation of the C loop. *)
Lemma countdown_unfold (n : Z) (body : M unit) :
  countdown n body =
  if n >? 0 then body ;; countdown (n - 1) body else ret tt.
Proof.
  unfold countdown. destruct (Z.gtb_spec n 0) as [Hpos|Hle].
  - replace (Z.to_nat n) with (S (Z.to_nat (n - 1))) by lia. reflexivity.
  - replace (Z.to_nat n) with O by lia. reflexivity.
Qed.

(** ** Rules for [emits] *)

Lemma emits_ret {A} (a : A) : emits (ret a) (eq []).
Proof.
  intros w. exists [], []. cbn. rewrite app_nil_r. auto.
Qed.

Lemma emits_emit (e : Event) : observe e = [] -> emits (emit e) (eq []).
Proof.
  intros He w. exists [], []. cbn. rewrite calls_snoc, He, !app_nil_r. auto.
Qed.

Lemma emits_cout (s : string) : emits (cout s) (eq []).
Proof. apply emits_emit. reflexivity. Qed.

Lemma emits_call (m : Method) :
  tested m = false -> emits (call m) (eq [Did m]).
Proof.
  intros Hm w. exists [Did m], []. cbn. rewrite calls_snoc. cbn.
  rewrite Hm. auto.
Qed.

Lemma emits_bind {A B} (m : M A) (f : A -> M B) (S1 S2 : list Obs -> Prop) :
  emits m S1 -> (forall a, emits (f a) S2) -> (exists l2, S2 l2) ->
  emits (bind m f)
        (fun l => exists l1 l2, S1 l1 /\ S2 l2 /\ l = l1 ++ l2).
Proof.
  intros H1 H2 [l2 Hl2] w.
  destruct (H1 w) as (cs1 & rest1 & HS1 & Hc1 & Hr1).
  unfold bind. destruct (m w) as [a w1|w1] eqn:Hm.
  - specialize (Hr1 a w1 eq_refl). subst rest1. rewrite app_nil_r in HS1.
    destruct (H2 a w1) as (cs2 & rest2 & HS2 & Hc2 & Hr2).
    exists (cs1 ++ cs2), rest2. repeat split.
    + exists cs1, (cs2 ++ rest2). rewrite app_assoc. auto.
    + cbn in Hc1. rewrite Hc2, Hc1, app_assoc. reflexivity.
    + exact Hr2.
  - exists cs1, (rest1 ++ l2). repeat split.
    + exists (cs1 ++ rest1), l2. rewrite <- app_assoc. auto.
    + exact Hc1.
    + discriminate.
Qed.

Lemma emits_weaken {A} (m : M A) (S S' : list Obs -> Prop) :
  emits m S -> (forall l, S l -> S' l) -> emits m S'.
Proof.
  intros H HS w. destruct (H w) as (cs & rest & H1 & H2 & H3).
  exists cs, rest. auto.
Qed.

Lemma emits_seq {A B} (m : M A) (f : A -> M B) (l1 l2 : list Obs) :
  emits m (eq l1) -> (forall a, emits (f a) (eq l2)) ->
  emits (bind m f) (eq (l1 ++ l2)).
Proof.
  intros H1 H2. eapply emits_weaken.
  - eapply emits_bind; eauto.
  - intros l (a & b & <- & <- & ->). reflexivity.
Qed.

Lemma emits_when (b : bool) (m : M unit) (l : list Obs) :
  emits m (eq l) -> emits (when b m) (eq (if b then l else [])).
Proof.
  destruct b; cbn; [auto | intros _; apply emits_ret].
Qed.

Lemma emits_times (n : nat) (body : M unit) (l : list Obs) :
  emits body (eq l) -> emits (times n body) (eq (concat (repeat l n))).
Proof.
  intros Hb. induction n as [|n IH]; cbn.
  - apply emits_ret.
  - apply emits_seq; auto.
Qed.

Lemma emits_countdown (n : Z) (m : Method) :
  tested m = false ->
  emits (countdown n (call m ;; ret tt)) (eq (rounds n m)).
Proof.
  intros Hm. unfold countdown, rounds.
  replace (repeat (Did m) (Z.to_nat n))
    with (concat (repeat ([Did m] ++ []) (Z.to_nat n))).
  - apply emits_times, emits_seq; [apply emits_call, Hm | intros; apply emits_ret].
  - induction (Z.to_nat n) as [|k IH]; cbn in *; [reflexivity | now rewrite IH].
Qed.

(** A loop whose condition is a call of [m]. *)
Lemma emits_while (fuel : nat) (m : Method) (body : M unit) (lb : list Obs) :
  tested m = true -> emits body (eq lb) ->
  emits (while fuel (call m) body) (fun l => exists k, l = loop_calls m lb k).
Proof.
  intros Hm Hb. induction fuel as [|fuel IH]; intros w.
  - exists [], (loop_calls m lb 0). cbn. rewrite app_nil_r.
    repeat split; [now exists O | discriminate].
  - cbn. unfold bind at 1. cbn.
    remember {| graph := after m (graph w);
                log := log w ++ [Call m (graph w)] |} as w1 eqn:Ew1.
    assert (Hw1 : calls (log w1) =
                  calls (log w) ++ [Got m (returned m (graph w))]).
    { rewrite Ew1. cbn. rewrite calls_snoc. cbn. now rewrite Hm. }
    clear Ew1.
    destruct (returned m (graph w)).
    + unfold bind. destruct (Hb w1) as (cb & rb & Hlb & Hcb & Hrb).
      destruct (body w1) as [[] w2|w2] eqn:Hbody.
      * specialize (Hrb tt w2 eq_refl). subst rb.
        rewrite app_nil_r in Hlb. subst cb.
        destruct (IH w2) as (cs & rest & [k Hk] & Hcs & Hrest).
        exists (Got m true :: lb ++ cs), rest. repeat split.
        -- exists (S k). unfold loop_calls in *. cbn.
           f_equal. rewrite <- !app_assoc. f_equal. exact Hk.
        -- rewrite Hcs. cbn in Hcb. rewrite Hcb, Hw1, <- !app_assoc.
           reflexivity.
        -- exact Hrest.
      * exists (Got m true :: cb), (rb ++ [Got m false]). repeat split.
        -- exists 1%nat. unfold loop_calls. cbn.
           rewrite app_nil_r, Hlb, <- app_assoc. reflexivity.
        -- cbn in *. rewrite Hcb, Hw1, <- app_assoc. reflexivity.
        -- discriminate.
    + exists [Got m false], []. repeat split.
      * now exists O.
      * exact Hw1.
Qed.

Lemma emits_eq {A} (m : M A) (l l' : list Obs) :
  emits m (eq l) -> l = l' -> emits m (eq l').
Proof. intros H <-. exact H. Qed.

Lemma emits_seq_l {A B} (m : M A) (f : A -> M B) l1 (S2 : list Obs -> Prop) :
  emits m (eq l1) -> (forall a, emits (f a) S2) -> (exists l2, S2 l2) ->
  emits (bind m f) (fun l => exists l2, S2 l2 /\ l = l1 ++ l2).
Proof.
  intros H1 H2 H3. eapply emits_weaken.
  - eapply emits_bind; eauto.
  - intros l (a & b & <- & Hb & ->). eauto.
Qed.

Lemma emits_seq_r {A B} (m : M A) (f : A -> M B) (S1 : list Obs -> Prop) l2 :
  emits m S1 -> (forall a, emits (f a) (eq l2)) ->
  emits (bind m f) (fun l => exists l1, S1 l1 /\ l = l1 ++ l2).
Proof.
  intros H1 H2. eapply emits_weaken.
  - eapply emits_bind; eauto.
  - intros l (a & b & Ha & <- & ->). eauto.
Qed.

Ltac emits_steps :=
  repeat first
    [ apply emits_ret
    | apply emits_cout
    | apply emits_emit; reflexivity
    | apply emits_call; reflexivity
    | apply emits_countdown; reflexivity
    | eapply emits_when
    | eapply emits_seq; [ | intros ? ] ].

Ltac inhabited :=
  cbn beta;
  repeat match goal with
         | |- exists k : nat, _ => exists O
         | |- exists _, _ => eexists
         | |- _ /\ _ => split
         | |- _ = _ => reflexivity
         end.

Ltac emits_block :=
  eapply emits_eq; [ emits_steps | ];
  cbn; rewrite ?app_nil_r; reflexivity.

(** ** The calls of each block *)

Lemma pre_assembly_emits o :
  emits (pre_assembly o) (eq (pre_assembly_calls o)).
Proof. unfold pre_assembly, pre_assembly_calls. emits_block. Qed.

Lemma remove_containments_emits fuel :
  emits (remove_containments fuel)
        (fun l => exists k1, l = remove_containments_calls k1).
Proof.
  unfold remove_containments, remove_containments_calls.
  eapply emits_weaken.
  - eapply emits_seq_l; [apply emits_cout | intros _ | ].
    + apply emits_while with (lb := [Did (visit containVisit)]);
        [reflexivity | ].
      eapply emits_eq; [emits_steps | reflexivity].
    + eexists. now exists O.
  - cbn. intros l (l2 & [k ->] & ->). now exists k.
Qed.

Lemma transitive_reduction_emits :
  emits transitive_reduction (eq transitive_reduction_calls).
Proof. unfold transitive_reduction, transitive_reduction_calls. emits_block. Qed.

Lemma validate_structure_emits o :
  emits (validate_structure o) (eq (validate_structure_calls o)).
Proof. unfold validate_structure, validate_structure_calls. emits_block. Qed.

Lemma correct_reads_emits o :
  emits (correct_reads o) (eq (correct_reads_calls o)).
Proof. unfold correct_reads, correct_reads_calls. emits_block. Qed.

Lemma remodel_graph_emits o fuel :
  emits (remodel_graph o fuel)
        (fun l => exists k2, l = remodel_graph_calls o k2).
Proof.
  unfold remodel_graph, remodel_graph_calls.
  destruct (opt.bRemodelGraph o); cbn [when].
  - eapply emits_weaken.
    + eapply emits_seq_l; [apply emits_cout | intros _ | ].
      * eapply emits_seq_l; [apply emits_call; reflexivity | intros _ | ].
        -- eapply emits_seq_l; [apply emits_call; reflexivity | intros _ | ].
           ++ eapply emits_seq_r.
              ** apply emits_while with (lb := [Did (visit containVisit)]);
                   [reflexivity | ].
                 eapply emits_eq; [emits_steps | reflexivity].
              ** intros _.
                 eapply emits_eq with (l' := [Did (visit trVisit);
                                              Did (visit statsVisit)]);
                   [emits_steps | reflexivity].
           ++ inhabited.
        -- inhabited.
      * inhabited.
    + cbn. intros l (l2 & (l3 & (l4 & (l5 & [k ->] & ->) & ->) & ->) & ->).
      exists k. reflexivity.
  - eapply emits_weaken; [apply emits_ret | ].
    intros l <-. now exists O.
Qed.

Lemma trim_emits o : emits (trim o) (eq (trim_calls o)).
Proof. unfold trim, trim_calls. emits_block. Qed.

Lemma smooth_emits o : emits (smooth o) (eq (smooth_calls o)).
Proof. unfold smooth, smooth_calls. emits_block. Qed.

Lemma resolve_small_repeats_emits o fuel :
  emits (resolve_small_repeats o fuel)
        (fun l => exists k3, l = resolve_small_repeats_calls o k3).
Proof.
  unfold resolve_small_repeats, resolve_small_repeats_calls.
  destruct (opt.resolveSmallRepeatLen o >=? 0); cbn [when].
  - eapply emits_weaken.
    + eapply emits_seq_l; [apply emits_cout | intros _ | ].
      * eapply emits_seq_r.
        -- apply emits_while with (lb := []); [reflexivity | apply emits_ret].
        -- intros _.
           eapply emits_eq with (l' := [Did (visit statsVisit)]);
             [emits_steps | reflexivity].
      * inhabited.
    + cbn. intros l (l2 & (l3 & [k ->] & ->) & ->). now exists k.
  - eapply emits_weaken; [apply emits_ret | ].
    intros l <-. now exists O.
Qed.

Lemma write_postmod_emits : emits write_postmod (eq write_postmod_calls).
Proof. unfold write_postmod, write_postmod_calls. emits_block. Qed.

Lemma simplify_and_pop_emits o :
  emits (simplify_and_pop o) (eq (simplify_and_pop_calls o)).
Proof. unfold simplify_and_pop, simplify_and_pop_calls. emits_block. Qed.

Lemma write_results_emits o :
  emits (write_results o) (eq (write_results_calls o)).
Proof. unfold write_results, write_results_calls. emits_block. Qed.

(** ** The calls of the whole pipeline *)

Ltac emits_of_block :=
  first [ apply pre_assembly_emits | apply remove_containments_emits
        | apply transitive_reduction_emits | apply validate_structure_emits
        | apply correct_reads_emits | apply remodel_graph_emits
        | apply trim_emits | apply smooth_emits
        | apply resolve_small_repeats_emits | apply write_postmod_emits
        | apply simplify_and_pop_emits | apply write_results_emits ].

Ltac emits_chain :=
  first [ eapply emits_bind; [ emits_of_block | intros _; emits_chain | inhabited ]
        | emits_of_block ].

Lemma pipeline_emits o fuel :
  emits (pipeline o fuel)
        (fun l => exists k1 k2 k3, l = pipeline_calls o k1 k2 k3).
Proof.
  eapply emits_weaken.
  - unfold pipeline. emits_chain.
  - cbn beta. intros l H.
    repeat match goal with
           | H : exists _, _ |- _ => destruct H
           | H : _ /\ _ |- _ => destruct H
           end.
    subst. do 3 eexists. unfold pipeline_calls. reflexivity.
Qed.

(** In every run of [assemble] the calls made so far are an initial
    segment of [pipeline_calls], and all of it when the run returns. *)
Lemma assemble_calls o fuel :
  exists k1 k2 k3 rest,
    pipeline_calls o k1 k2 k3 =
      calls (log (world_of (assemble o fuel))) ++ rest /\
    (forall w, assemble o fuel = Ok tt w -> rest = []).
Proof.
  unfold assemble.
  destruct (pipeline_emits o fuel
              {| graph := loadASQG (opt.asqgFile o) (opt.minOverlap o) true;
                 log := [Load (opt.asqgFile o) (opt.minOverlap o) true] |})
    as (cs & rest & (k1 & k2 & k3 & Hk) & Hc & Hr).
  exists k1, k2, k3, rest. split.
  - rewrite Hc. cbn. symmetry. exact Hk.
  - intros w Hw. exact (Hr tt w Hw).
Qed.

(** The same after a projection of the calls. *)
Lemma assemble_calls_filter (p : Obs -> bool) o fuel :
  exists k1 k2 k3,
    prefix_of (filter p (calls (log (world_of (assemble o fuel)))))
              (filter p (pipeline_calls o k1 k2 k3)) /\
    (forall w, assemble o fuel = Ok tt w ->
               filter p (calls (log w)) = filter p (pipeline_calls o k1 k2 k3)).
Proof.
  destruct (assemble_calls o fuel) as (k1 & k2 & k3 & rest & He & Hr).
  exists k1, k2, k3. split.
  - exists (filter p rest). rewrite He. apply filter_app.
  - intros w Hw. rewrite He, (Hr w Hw), app_nil_r, Hw. reflexivity.
Qed.

(** ** Projections of the calls *)

Lemma filter_if {A} (p : A -> bool) (b : bool) (l1 l2 : list A) :
  filter p (if b then l1 else l2) = if b then filter p l1 else filter p l2.
Proof. now destruct b. Qed.

Lemma if_same {A} (b : bool) (x : A) : (if b then x else x) = x.
Proof. now destruct b. Qed.

Lemma filter_rounds (p : Obs -> bool) n m :
  filter p (rounds n m) = if p (Did m) then rounds n m else [].
Proof.
  unfold rounds. induction (Z.to_nat n) as [|k IH]; cbn.
  - now destruct (p (Did m)).
  - rewrite IH. now destruct (p (Did m)).
Qed.

Lemma filter_loop_calls (p : Obs -> bool) m body k :
  filter p (loop_calls m body k) =
  concat (repeat (filter p (Got m true :: body)) k) ++ filter p [Got m false].
Proof.
  unfold loop_calls. rewrite filter_app. f_equal.
  induction k as [|k IH].
  - reflexivity.
  - cbn [repeat concat]. rewrite filter_app, IH. reflexivity.
Qed.

Lemma concat_repeat_nil {A} k : concat (repeat (@nil A) k) = [].
Proof. induction k; cbn; auto. Qed.

Lemma concat_repeat_one {A} (x : A) k : concat (repeat [x] k) = repeat x k.
Proof. induction k; cbn; congruence. Qed.

Ltac project :=
  unfold pipeline_calls, pre_assembly_calls, remove_containments_calls,
    transitive_reduction_calls, validate_structure_calls, correct_reads_calls,
    remodel_graph_calls, trim_calls, smooth_calls, resolve_small_repeats_calls,
    write_postmod_calls, simplify_and_pop_calls, write_results_calls;
  repeat rewrite ?filter_app, ?filter_if, ?filter_rounds, ?filter_loop_calls;
  cbn -[Z.gtb Z.geb];
  rewrite ?concat_repeat_nil, ?concat_repeat_one, ?if_same;
  cbn -[Z.gtb Z.geb]; rewrite ?app_nil_r.

(** ** The order and the number of the stages *)

Ltac by_projection p o fuel :=
  let k1 := fresh "k1" in
  let k2 := fresh "k2" in
  let k3 := fresh "k3" in
  let Hpre := fresh "Hpre" in
  let Hok := fresh "Hok" in
  destruct (assemble_calls_filter p o fuel) as (k1 & k2 & k3 & Hpre & Hok);
  revert Hpre Hok; project; rewrite ?app_nil_r.

(** C2: in every run [simplify] is called before any bubble popping;
    then, when the number N of bubble rounds is positive, the bubble
    visitor is applied exactly N times and [simplify] is called a
    second time, and when N is not positive neither happens.  A run
    that has not returned has made an initial segment of these
    calls. *)
Theorem compaction_then_bubbles (o : opt.t) (fuel : nat) :
  let N := opt.numBubbleRounds o in
  let target :=
    Did simplify ::
    (if N >? 0
     then repeat (Did (visit bubbleVisit)) (Z.to_nat N) ++ [Did simplify]
     else []) in
  prefix_of (filter is_compaction (calls (log (world_of (assemble o fuel)))))
            target /\
  (forall w, assemble o fuel = Ok tt w ->
             filter is_compaction (calls (log w)) = target).
Proof.
  cbv zeta. by_projection is_compaction o fuel. unfold rounds. auto.
Qed.

(** C4: when the number N of trim rounds is positive, the trimming
    visitor is applied exactly N times in a run that returns (and at
    most N times in one that has not returned), whatever the visits
    report: the statement holds for every behaviour of the graph. *)
Theorem trim_rounds_fixed (o : opt.t) (fuel : nat) :
  let N := opt.numTrimRounds o in
  0 < N ->
  prefix_of (filter is_trim (calls (log (world_of (assemble o fuel)))))
            (repeat (Did (visit trimVisit)) (Z.to_nat N)) /\
  (forall w, assemble o fuel = Ok tt w ->
             filter is_trim (calls (log w)) =
             repeat (Did (visit trimVisit)) (Z.to_nat N)).
Proof.
  cbv zeta. intros HN. by_projection is_trim o fuel. unfold rounds.
  destruct (Z.gtb_spec (opt.numTrimRounds o) 0); [auto | lia].
Qed.

(** C5: when smoothing is enabled, the smoothing visitor is applied
    exactly 4 times in a run that returns, whatever the visits report
    and whatever the other options are. *)
Theorem smoothing_rounds_fixed (o : opt.t) (fuel : nat) :
  opt.bSmoothGraph o = true ->
  let four := [Did (visit smoothingVisit); Did (visit smoothingVisit);
               Did (visit smoothingVisit); Did (visit smoothingVisit)] in
  prefix_of (filter is_smoothing (calls (log (world_of (assemble o fuel)))))
            four /\
  (forall w, assemble o fuel = Ok tt w ->
             filter is_smoothing (calls (log w)) = four).
Proof.
  cbv zeta. intros Hs. by_projection is_smoothing o fuel.
  rewrite Hs. unfold rounds. cbn. auto.
Qed.

(** C6: the small-repeat visitor, built with the configured length,
    is applied if and only if that length is not negative; it is then
    applied again as long as it reports a change, and the last
    application of a run that returns reports no change. *)
Theorem small_repeats_to_fixed_point (o : opt.t) (fuel : nat) :
  let len := opt.resolveSmallRepeatLen o in
  let sr := visit (smallRepeatVisit len) in
  exists k,
    let target :=
      if len >=? 0 then repeat (Got sr true) k ++ [Got sr false] else [] in
    prefix_of (filter is_small_repeat
                      (calls (log (world_of (assemble o fuel)))))
              target /\
    (forall w, assemble o fuel = Ok tt w ->
               filter is_small_repeat (calls (log w)) = target).
Proof.
  cbv zeta. by_projection is_small_repeat o fuel. eauto.
Qed.

(** C3: when remodelling is enabled, the remodel visitor is applied
    after the first containment removal and transitive reduction (and
    after the error correction, if any); then [hasContainment] is
    tested and the containment visitor applied as long as the test
    returns true, and when it returns false the transitive-reduction
    visitor is applied once. *)
Theorem remodel_then_reduce_again (o : opt.t) (fuel : nat) :
  opt.bRemodelGraph o = true ->
  exists k1 k2,
    let target :=
      loop_calls hasContainment [Did (visit containVisit)] k1 ++
      [Did (visit trVisit)] ++
      (if opt.bCorrectReads o then [Did (visit errorCorrectVisit)] else []) ++
      [Did (visit remodelVisit)] ++
      loop_calls hasContainment [Did (visit containVisit)] k2 ++
      [Did (visit trVisit)] in
    prefix_of (filter is_reduction (calls (log (world_of (assemble o fuel)))))
              target /\
    (forall w, assemble o fuel = Ok tt w ->
               filter is_reduction (calls (log w)) = target).
Proof.
  cbv zeta. intros Hr. by_projection is_reduction o fuel.
  rewrite Hr. intros Hpre Hok. exists k1, k2. unfold loop_calls.
  cbn. rewrite <- !app_assoc in *. cbn in *. auto.
Qed.

(** ** Transitive reduction runs on a containment-free graph *)

Lemma keeps_ret {A} (a : A) (pre : Graph -> Prop) :
  keeps pre (ret a) (fun _ => pre).
Proof. intros w Hl Hp. cbn. auto. Qed.

Lemma keeps_emit (e : Event) (pre : Graph -> Prop) :
  ok_event e -> keeps pre (emit e) (fun _ => pre).
Proof.
  intros He w Hl Hp. cbn. split; [ | exact Hp].
  apply Forall_app. auto.
Qed.

Lemma keeps_cout (s : string) (pre : Graph -> Prop) :
  keeps pre (cout s) (fun _ => pre).
Proof. apply keeps_emit. exact I. Qed.

Lemma keeps_call (m : Method) (pre : Graph -> Prop) (post : bool -> Graph -> Prop) :
  (forall g, pre g -> ok_event (Call m g) /\ post (returned m g) (after m g)) ->
  keeps pre (call m) post.
Proof.
  intros H w Hl Hp. destruct (H _ Hp) as [He Hq]. cbn. split; [ | exact Hq].
  apply Forall_app. auto.
Qed.

Lemma keeps_bind {A B} (m : M A) (f : A -> M B) pre mid post :
  keeps pre m mid -> (forall a, keeps (mid a) (f a) post) ->
  keeps pre (bind m f) post.
Proof.
  intros H1 H2 w Hl Hp. specialize (H1 w Hl Hp). unfold bind.
  destruct (m w) as [a w1|w1]; [ | exact H1].
  destruct H1 as [Hl1 Hm]. exact (H2 a w1 Hl1 Hm).
Qed.

Lemma keeps_any_call (m : Method) :
  (forall g, ok_event (Call m g)) -> keeps any (call m) any'.
Proof. intros H. apply keeps_call. intros g _. split; [apply H | exact I]. Qed.

Lemma keeps_any_emit (e : Event) : ok_event e -> keeps any (emit e) any'.
Proof. intros H. apply (keeps_emit e any H). Qed.

Lemma keeps_any_ret {A} (a : A) : keeps any (ret a) any'.
Proof. apply (keeps_ret a any). Qed.

Lemma keeps_any_bind {A B} (m : M A) (f : A -> M B) :
  keeps any m any' -> (forall a, keeps any (f a) any') ->
  keeps any (bind m f) any'.
Proof. intros H1 H2. eapply keeps_bind; eauto. Qed.

Lemma keeps_any_when (b : bool) (m : M unit) :
  keeps any m any' -> keeps any (when b m) any'.
Proof. destruct b; cbn; [auto | intros _; apply keeps_any_ret]. Qed.

Lemma keeps_any_times (n : nat) (body : M unit) :
  keeps any body any' -> keeps any (times n body) any'.
Proof.
  intros Hb. induction n; cbn; [apply keeps_any_ret | ].
  apply keeps_any_bind; auto.
Qed.

Lemma keeps_any_while (fuel : nat) (cond : M bool) (body : M unit) :
  keeps any cond any' -> keeps any body any' ->
  keeps any (while fuel cond body) any'.
Proof.
  intros Hc Hb. induction fuel as [|fuel IH]; cbn.
  - intros w Hl _. exact Hl.
  - apply keeps_any_bind; [exact Hc | ]. intros [].
    + apply keeps_any_bind; auto.
    + apply keeps_any_ret.
Qed.

Ltac keeps_any_steps :=
  repeat first
    [ apply keeps_any_ret
    | apply keeps_any_emit; exact I
    | apply keeps_any_call; intros ?; exact I
    | apply keeps_any_when
    | apply keeps_any_times
    | apply keeps_any_while
    | apply keeps_any_bind; [ | intros ? ] ].

(** The loop [while (pGraph->hasContainment()) body]. *)
Lemma keeps_containment_loop (fuel : nat) (body : M unit) :
  keeps (fun g => do_hasContainment g = true) body any' ->
  keeps any (while fuel (call hasContainment) body)
        (fun _ g => do_hasContainment g = false).
Proof.
  intros Hb. induction fuel as [|fuel IH]; cbn.
  - intros w Hl _. exact Hl.
  - eapply keeps_bind with (mid := fun b g => do_hasContainment g = b).
    + apply keeps_call. intros g _. cbn. auto.
    + intros [].
      * eapply keeps_bind; [exact Hb | intros ?; exact IH].
      * apply (keeps_ret tt (fun g => do_hasContainment g = false)).
Qed.

Lemma keeps_contain_visit :
  keeps (fun g => do_hasContainment g = true)
        (call (visit containVisit) ;; ret tt) any'.
Proof.
  eapply keeps_bind with (mid := any').
  - apply keeps_call. intros g Hg. cbn. split; [exact Hg | exact I].
  - intros ?. apply keeps_any_ret.
Qed.

Section ContainmentFree.

(** The statistics visitor, which runs between the containment loop
    and the first transitive reduction, does not flag a vertex as
    contained. *)
Hypothesis stats_keeps_free :
  forall g, do_hasContainment g = false ->
            do_hasContainment (fst (do_visit statsVisit g)) = false.

Lemma keeps_transitive_reduction :
  keeps (fun g => do_hasContainment g = false) transitive_reduction any'.
Proof.
  unfold transitive_reduction.
  set (free := fun g => do_hasContainment g = false).
  eapply keeps_bind; [apply (keeps_cout _ free) | intros ?].
  eapply keeps_bind with (mid := fun _ => free).
  { apply keeps_call. intros g Hg. cbn. split; [exact I | ].
    apply stats_keeps_free, Hg. }
  intros ?.
  eapply keeps_bind; [apply (keeps_cout _ free) | intros ?].
  eapply keeps_bind with (mid := any').
  { apply keeps_call. intros g Hg. cbn. split; [exact Hg | exact I]. }
  intros ?. apply keeps_any_ret.
Qed.

Lemma keeps_remodel_graph o fuel : keeps any (remodel_graph o fuel) any'.
Proof.
  unfold remodel_graph. apply keeps_any_when.
  apply keeps_any_bind; [keeps_any_steps | intros ?].
  apply keeps_any_bind; [keeps_any_steps | intros ?].
  apply keeps_any_bind; [keeps_any_steps | intros ?].
  eapply keeps_bind.
  - apply keeps_containment_loop.
    eapply keeps_bind;
      [apply (keeps_cout _ (fun g => do_hasContainment g = true)) | intros ?].
    apply keeps_contain_visit.
  - intros ?. cbv beta.
    eapply keeps_bind with (mid := any').
    + apply keeps_call. intros g Hg. cbn. split; [exact Hg | exact I].
    + intros ?. keeps_any_steps.
Qed.

Lemma keeps_pipeline o fuel : keeps any (pipeline o fuel) any'.
Proof.
  unfold pipeline.
  apply keeps_any_bind; [unfold pre_assembly; keeps_any_steps | intros ?].
  eapply keeps_bind.
  { unfold remove_containments.
    eapply keeps_bind; [apply (keeps_cout _ any) | intros ?].
    apply keeps_containment_loop, keeps_contain_visit. }
  intros ?. cbv beta.
  eapply keeps_bind; [apply keeps_transitive_reduction | intros ?].
  apply keeps_any_bind; [unfold validate_structure; keeps_any_steps | intros ?].
  apply keeps_any_bind; [unfold correct_reads; keeps_any_steps | intros ?].
  apply keeps_any_bind; [apply keeps_remodel_graph | intros ?].
  apply keeps_any_bind; [unfold trim, countdown; keeps_any_steps | intros ?].
  apply keeps_any_bind; [unfold smooth, countdown; keeps_any_steps | intros ?].
  apply keeps_any_bind;
    [unfold resolve_small_repeats; keeps_any_steps | intros ?].
  apply keeps_any_bind; [unfold write_postmod; keeps_any_steps | intros ?].
  apply keeps_any_bind;
    [unfold simplify_and_pop, countdown; keeps_any_steps | intros ?].
  unfold write_results. keeps_any_steps.
Qed.

Lemma assemble_log_ok o fuel :
  Forall ok_event (log (world_of (assemble o fuel))).
Proof.
  unfold assemble.
  pose proof (keeps_pipeline o fuel
                {| graph := loadASQG (opt.asqgFile o) (opt.minOverlap o) true;
                   log := [Load (opt.asqgFile o) (opt.minOverlap o) true] |})
    as H.
  cbn in H.
  assert (H0 : Forall ok_event
                 [Load (opt.asqgFile o) (opt.minOverlap o) true])
    by (repeat constructor).
  specialize (H H0 I).
  destruct (pipeline o fuel _); cbn; tauto.
Qed.

(** C1: in every run, returned or not, the transitive-reduction
    visitor is applied only to a graph in which no vertex is flagged
    contained, and the containment visitor only to a graph in which
    one is.  The calls of [hasContainment], of the containment visitor
    and of the transitive-reduction visitor come in this order: the
    test and the visitor alternate as long as the test returns true,
    and each transitive reduction directly follows a test that
    returned false.  The statistics visitor runs between the first
    loop and the first reduction; it is assumed not to flag
    vertices. *)
Theorem reduction_only_without_containment (o : opt.t) (fuel : nat) :
  let tr := log (world_of (assemble o fuel)) in
  (forall g, In (Call (visit trVisit) g) tr -> do_hasContainment g = false) /\
  (forall g, In (Call (visit containVisit) g) tr -> do_hasContainment g = true) /\
  exists k1 k2,
    let target :=
      loop_calls hasContainment [Did (visit containVisit)] k1 ++
      [Did (visit trVisit)] ++
      (if opt.bRemodelGraph o
       then loop_calls hasContainment [Did (visit containVisit)] k2 ++
            [Did (visit trVisit)]
       else []) in
    prefix_of (filter is_containment_loop (calls tr)) target /\
    (forall w, assemble o fuel = Ok tt w ->
               filter is_containment_loop (calls (log w)) = target).
Proof.
  cbv zeta. pose proof (assemble_log_ok o fuel) as Hok.
  rewrite Forall_forall in Hok. repeat split.
  - intros g Hin. exact (Hok _ Hin).
  - intros g Hin. exact (Hok _ Hin).
  - by_projection is_containment_loop o fuel.
    intros Hpre Hret. exists k1, k2. unfold loop_calls.
    destruct (opt.bRemodelGraph o); cbn;
      rewrite <- ?app_assoc in *; cbn in *; auto.
Qed.

End ContainmentFree.

(** ** The option parser *)

Lemma option_switch_continue it o die :
  is_help_or_version it = false ->
  exists o', option_switch it o die = Continue o' (die || is_unknown it) /\
             (is_min_overlap it = false ->
              opt.minOverlap o' = opt.minOverlap o).
Proof.
  unfold is_help_or_version, is_unknown, is_min_overlap, option_switch.
  destruct it as [ch arg].
  destruct ch as [[] [] [] [] [] [] [] []]; cbn; intros Hh;
    try discriminate Hh;
    rewrite ?orb_false_r, ?orb_true_r;
    (eexists; split; [reflexivity | intros Hm; try discriminate Hm; reflexivity]).
Qed.

Lemma option_loop_continue items : forall o die,
  existsb is_help_or_version items = false ->
  exists o', option_loop items o die =
               Continue o' (die || existsb is_unknown items) /\
             (existsb is_min_overlap items = false ->
              opt.minOverlap o' = opt.minOverlap o).
Proof.
  induction items as [|it items IH]; intros o die Hh; cbn in *.
  - exists o. rewrite orb_false_r. auto.
  - apply orb_false_elim in Hh. destruct Hh as [Hit Hitems].
    destruct (option_switch_continue it o die Hit) as (o1 & -> & Hm1).
    destruct (IH o1 (die || is_unknown it) Hitems) as (o2 & -> & Hm2).
    exists o2. rewrite orb_assoc. split; [reflexivity | ].
    intros Hm. apply orb_false_elim in Hm. destruct Hm as [Ha Hb].
    rewrite (Hm2 Hb). auto.
Qed.

Lemma option_switch_help_exit it o die :
  is_help_or_version it = true ->
  exists msg, (msg = ASSEMBLE_USAGE_MESSAGE \/ msg = ASSEMBLE_VERSION_MESSAGE) /\
              option_switch it o die = ExitNow EXIT_SUCCESS (Cout msg).
Proof.
  unfold is_help_or_version, option_switch. destruct it as [ch arg].
  destruct ch as [[] [] [] [] [] [] [] []]; cbn; intros Hh;
    try discriminate Hh; eauto.
Qed.

Lemma option_loop_help items : forall o die,
  existsb is_help_or_version items = true ->
  exists msg, (msg = ASSEMBLE_USAGE_MESSAGE \/ msg = ASSEMBLE_VERSION_MESSAGE) /\
              option_loop items o die = ExitNow EXIT_SUCCESS (Cout msg).
Proof.
  induction items as [|it items IH]; cbn; intros o die Hh; [discriminate | ].
  destruct (is_help_or_version it) eqn:Hit.
  - destruct (option_switch_help_exit it o die Hit) as (msg & Hmsg & ->).
    eauto.
  - destruct (option_switch_continue it o die Hit) as (o1 & -> & _).
    apply IH. exact Hh.
Qed.

Lemma parse_without_help cl o0 :
  existsb is_help_or_version (options cl) = false ->
  if usage_error cl
  then parseAssembleOptions cl o0 = Exit EXIT_FAILURE (usage_diagnostic cl)
  else exists o, parseAssembleOptions cl o0 = Parsed o.
Proof.
  intros Hh. unfold parseAssembleOptions, usage_error, usage_diagnostic.
  destruct (option_loop_continue (options cl)
              (opt.set_minOverlap 0 (opt.set_outFile "contigs.fa" o0))
              false Hh) as (o' & -> & _).
  cbn [orb].
  destruct (Z.of_nat (List.length (operands cl)) <? 1); cbn; [reflexivity | ].
  destruct (Z.of_nat (List.length (operands cl)) >? 1); cbn; [reflexivity | ].
  destruct (existsb is_unknown (options cl)); cbn; eauto.
Qed.

Lemma option_loop_no_exit items : forall o die o' die',
  option_loop items o die = Continue o' die' ->
  existsb is_help_or_version items = false.
Proof.
  induction items as [|it items IH]; cbn; intros o die o' die' Hl;
    [reflexivity | ].
  destruct (is_help_or_version it) eqn:Hit; cbn.
  - destruct (option_switch_help_exit it o die Hit) as (msg & _ & He).
    rewrite He in Hl. discriminate.
  - destruct (option_switch it o die); [eauto | discriminate].
Qed.

Lemma parsed_min_overlap cl o0 o :
  existsb is_min_overlap (options cl) = false ->
  parseAssembleOptions cl o0 = Parsed o ->
  opt.minOverlap o = 0.
Proof.
  intros Hm Hp. unfold parseAssembleOptions in Hp.
  set (o1 := opt.set_minOverlap 0 (opt.set_outFile "contigs.fa" o0)) in *.
  destruct (option_loop (options cl) o1 false) as [o2 die|status e] eqn:Hloop;
    [ | discriminate].
  pose proof (option_loop_no_exit _ _ _ _ _ Hloop) as Hh.
  destruct (option_loop_continue (options cl) o1 false Hh) as (o3 & Ho3 & Hmin).
  rewrite Hloop in Ho3. injection Ho3 as <- _.
  specialize (Hmin Hm). cbn in Hmin.
  destruct (Z.of_nat (List.length (operands cl)) <? 1); [discriminate | ].
  destruct (Z.of_nat (List.length (operands cl)) >? 1); [discriminate | ].
  destruct die; [discriminate | ].
  injection Hp as <-. cbn. exact Hmin.
Qed.

Lemma filter_min_overlap_0 (l : list Overlap) :
  filter (fun ov => 0 <=? Z.of_N (overlapLength ov)) l = l.
Proof.
  induction l as [|ov l IH]; cbn; [reflexivity | ].
  destruct (Z.leb_spec 0 (Z.of_N (overlapLength ov))); [now rewrite IH | lia].
Qed.

(** ** Validation and snapshots *)

(** C8, amended: with the validate flag the validation visitor is
    applied once in a run, directly after the first transitive
    reduction, and without the flag it is not applied; a build with
    VALIDATE defined calls [validate] once, after the last
    compaction.  No other stage is preceded by a check of its own. *)
Theorem validation_once_after_reduction (o : opt.t) (fuel : nat) :
  let sr := visit (smallRepeatVisit (opt.resolveSmallRepeatLen o)) in
  exists k1 k2 k3,
    let target :=
      repeat (Did (visit containVisit)) k1 ++
      [Did (visit trVisit)] ++
      (if opt.bValidate o then [Did (visit validationVisit)] else []) ++
      (if opt.bCorrectReads o then [Did (visit errorCorrectVisit)] else []) ++
      (if opt.bRemodelGraph o
       then [Did (visit remodelVisit)] ++
            repeat (Did (visit containVisit)) k2 ++ [Did (visit trVisit)]
       else []) ++
      (if opt.numTrimRounds o >? 0
       then repeat (Did (visit trimVisit)) (Z.to_nat (opt.numTrimRounds o))
       else []) ++
      (if opt.bSmoothGraph o
       then repeat (Did (visit smoothingVisit)) 4 else []) ++
      (if opt.resolveSmallRepeatLen o >=? 0
       then repeat (Got sr true) k3 ++ [Got sr false] else []) ++
      [Did simplify] ++
      (if opt.numBubbleRounds o >? 0
       then repeat (Did (visit bubbleVisit))
                   (Z.to_nat (opt.numBubbleRounds o)) ++ [Did simplify]
       else []) ++
      (if VALIDATE then [Did validate] else []) in
    prefix_of (filter is_stage_or_check
                      (calls (log (world_of (assemble o fuel)))))
              target /\
    (forall w, assemble o fuel = Ok tt w ->
               filter is_stage_or_check (calls (log w)) = target).
Proof.
  cbv zeta. by_projection is_stage_or_check o fuel.
  intros Hpre Hret. exists k1, k2, k3. unfold rounds in *.
  replace (Z.to_nat 4) with 4%nat in * by reflexivity.
  destruct (opt.bRemodelGraph o), (opt.resolveSmallRepeatLen o >=? 0),
    (opt.numBubbleRounds o >? 0); cbn in *;
    rewrite <- ?app_assoc in *; cbn in *; auto.
Qed.

(** C9: the ASQG snapshots of a run and their place among the stages:
    [afterEC] follows the error correction and is written only when
    correction is enabled, [afterRM] follows the remodel visitor and
    is written only when remodelling is enabled, [postmod] follows
    trimming, smoothing and small-repeat resolution and is always
    written, and the final graph follows compaction, bubble removal
    and renaming and is written only when a file name is configured. *)
Theorem snapshots_after_their_stage (o : opt.t) (fuel : nat) :
  let sr := visit (smallRepeatVisit (opt.resolveSmallRepeatLen o)) in
  exists k1 k2 k3,
    let target :=
      repeat (Did (visit containVisit)) k1 ++
      [Did (visit trVisit)] ++
      (if opt.bCorrectReads o
       then [Did (visit errorCorrectVisit); Did (writeASQG "afterEC.asqg.gz")]
       else []) ++
      (if opt.bRemodelGraph o
       then [Did (visit remodelVisit); Did (writeASQG "afterRM.asqg.gz")] ++
            repeat (Did (visit containVisit)) k2 ++ [Did (visit trVisit)]
       else []) ++
      (if opt.numTrimRounds o >? 0
       then repeat (Did (visit trimVisit)) (Z.to_nat (opt.numTrimRounds o))
       else []) ++
      (if opt.bSmoothGraph o
       then repeat (Did (visit smoothingVisit)) 4 else []) ++
      (if opt.resolveSmallRepeatLen o >=? 0
       then repeat (Got sr true) k3 ++ [Got sr false] else []) ++
      [Did (writeASQG "postmod.asqg.gz"); Did simplify] ++
      (if opt.numBubbleRounds o >? 0
       then repeat (Did (visit bubbleVisit))
                   (Z.to_nat (opt.numBubbleRounds o)) ++ [Did simplify]
       else []) ++
      [Did (renameVertices "contig-")] ++
      (if negb (empty (opt.asqgOutfile o))
       then [Did (writeASQG (opt.asqgOutfile o))] else []) in
    prefix_of (filter is_stage_or_snapshot
                      (calls (log (world_of (assemble o fuel)))))
              target /\
    (forall w, assemble o fuel = Ok tt w ->
               filter is_stage_or_snapshot (calls (log w)) = target).
Proof.
  cbv zeta. by_projection is_stage_or_snapshot o fuel.
  intros Hpre Hret. exists k1, k2, k3. unfold rounds in *.
  replace (Z.to_nat 4) with 4%nat in * by reflexivity.
  destruct (opt.bRemodelGraph o), (opt.resolveSmallRepeatLen o >=? 0),
    (opt.numBubbleRounds o >? 0); cbn in *;
    rewrite <- ?app_assoc in *; cbn in *; auto.
Qed.

(** ** Usage errors and defaults *)

(** C7, amended: when --help or --version is among the options,
    [assembleMain] prints the usage or the version text and exits with
    0, whatever else is on the command line.  Otherwise a command line
    with no operand, with more than one operand or with an unknown
    option makes it write the diagnostic that ends with the pointer to
    --help on the error stream and exit with EXIT_FAILURE, which is
    not 0, before the graph is loaded or any stage runs; a command
    line without such an error is parsed and the pipeline runs.
    Whenever [assembleMain] returns, it returns 0. *)
Theorem usage_error_exits_nonzero (cl : CommandLine) (fuel : nat) :
  (existsb is_help_or_version (options cl) = true ->
     exists msg,
       (msg = ASSEMBLE_USAGE_MESSAGE \/ msg = ASSEMBLE_VERSION_MESSAGE) /\
       assembleMain cl fuel = Exits EXIT_SUCCESS [Cout msg]) /\
  (existsb is_help_or_version (options cl) = false ->
   usage_error cl = true ->
     assembleMain cl fuel = Exits EXIT_FAILURE (usage_diagnostic cl) /\
     EXIT_FAILURE <> 0 /\
     no_graph_work (usage_diagnostic cl) = true) /\
  (existsb is_help_or_version (options cl) = false ->
   usage_error cl = false ->
     exists o, parseAssembleOptions cl opt.statics = Parsed o /\
               assembleMain cl fuel =
               match assemble o fuel with
               | Ok _ w => Returns 0 (log w)
               | OutOfFuel w => Runs (log w)
               end) /\
  (forall code tr, assembleMain cl fuel = Returns code tr -> code = 0).
Proof.
  unfold assembleMain. split; [ | split; [ | split]].
  - intros Hh. unfold parseAssembleOptions.
    destruct (option_loop_help (options cl)
                (opt.set_minOverlap 0 (opt.set_outFile "contigs.fa" opt.statics))
                false Hh) as (msg & Hmsg & ->).
    exists msg. auto.
  - intros Hh He. pose proof (parse_without_help cl opt.statics Hh) as Hp.
    rewrite He in Hp. rewrite Hp. repeat split.
    + discriminate.
    + unfold usage_diagnostic.
      destruct (Z.of_nat (List.length (operands cl)) <? 1); [reflexivity | ].
      destruct (Z.of_nat (List.length (operands cl)) >? 1); reflexivity.
  - intros Hh He. pose proof (parse_without_help cl opt.statics Hh) as Hp.
    rewrite He in Hp. destruct Hp as [o Ho].
    exists o. rewrite Ho. auto.
  - intros code tr.
    destruct (parseAssembleOptions cl opt.statics); [ | discriminate].
    destruct (assemble o fuel); [ | discriminate].
    intros Hr. injection Hr as <- _. reflexivity.
Qed.

(** C10: when [getopt_long] reports no 'm' (neither -m nor
    --min-overlap is on the command line) and the options are parsed,
    the minimum overlap is 0, the graph is loaded with that value, and
    the graph on which the pipeline runs is built from all the overlap
    records of the file. *)
Theorem min_overlap_defaults_to_0 (cl : CommandLine) (o0 o : opt.t) (fuel : nat) :
  existsb is_min_overlap (options cl) = false ->
  parseAssembleOptions cl o0 = Parsed o ->
  opt.minOverlap o = 0 /\
  loadASQG (opt.asqgFile o) (opt.minOverlap o) true =
    buildGraph (opt.asqgFile o) (asqgOverlaps (opt.asqgFile o)) true /\
  assemble o fuel =
    pipeline o fuel
      {| graph := buildGraph (opt.asqgFile o)
                             (asqgOverlaps (opt.asqgFile o)) true;
         log := [Load (opt.asqgFile o) 0 true] |}.
Proof.
  intros Hm Hp. pose proof (parsed_min_overlap cl o0 o Hm Hp) as H0.
  unfold assemble, loadASQG. rewrite H0, filter_min_overlap_0. auto.
Qed.

(** ** Enough fuel: the pipeline returns when its loops converge *)

Lemma total_ret {A} (a : A) : total (ret a).
Proof. intros w. do 2 eexists. reflexivity. Qed.

Lemma total_emit (e : Event) : total (emit e).
Proof. intros w. do 2 eexists. reflexivity. Qed.

Lemma total_call (m : Method) : total (call m).
Proof. intros w. do 2 eexists. reflexivity. Qed.

Lemma total_bind {A B} (m : M A) (f : A -> M B) :
  total m -> (forall a, total (f a)) -> total (bind m f).
Proof.
  intros H1 H2 w. destruct (H1 w) as (a & w1 & Hm).
  unfold bind. rewrite Hm. apply H2.
Qed.

Lemma total_when (b : bool) (m : M unit) : total m -> total (when b m).
Proof. destruct b; cbn; [auto | intros _; apply total_ret]. Qed.

Lemma total_times (n : nat) (body : M unit) :
  total body -> total (times n body).
Proof.
  intros Hb. induction n; cbn; [apply total_ret | ].
  apply total_bind; auto.
Qed.

Ltac total_steps :=
  repeat first
    [ apply total_ret | apply total_emit | apply total_call
    | apply total_when | apply total_times
    | apply total_bind; [ | intros ? ] ].

Lemma settles_total (m : M unit) : total m -> settles (fun _ => m).
Proof.
  intros H w. destruct (H w) as ([] & w' & Hm). exists O, w'. auto.
Qed.

Lemma settles_bind (m1 m2 : nat -> M unit) :
  settles m1 -> settles m2 -> settles (fun fuel => m1 fuel ;; m2 fuel).
Proof.
  intros H1 H2 w. destruct (H1 w) as (n1 & w1 & Hw1).
  destruct (H2 w1) as (n2 & w2 & Hw2).
  exists (Nat.max n1 n2), w2. intros fuel Hf. unfold bind.
  rewrite Hw1 by lia. apply Hw2. lia.
Qed.

Lemma settles_when (b : bool) (m : nat -> M unit) :
  settles m -> settles (fun fuel => when b (m fuel)).
Proof.
  destruct b; cbn; [auto | intros _; apply settles_total, total_ret].
Qed.

(** A loop whose condition is a call of [m] and whose body acts on the
    graph as [step] returns once the condition is false. *)
Lemma while_settles (m : Method) (body : M unit) (step : Graph -> Graph) :
  (forall w, exists w', body w = Ok tt w' /\ graph w' = step (graph w)) ->
  forall n w,
    returned m (Nat.iter n (fun g => step (after m g)) (graph w)) = false ->
    exists w', forall fuel, (n < fuel)%nat ->
                            while fuel (call m) body w = Ok tt w'.
Proof.
  intros Hb. induction n as [|n IH]; intros w Hn.
  - cbn in Hn. eexists. intros [|fuel] Hf; [lia | ].
    cbn. unfold bind. cbn. rewrite Hn. reflexivity.
  - rewrite Nat.iter_succ_r in Hn.
    destruct (returned m (graph w)) eqn:Hr.
    + set (w1 := {| graph := after m (graph w);
                    log := log w ++ [Call m (graph w)] |}).
      destruct (Hb w1) as (w2 & Hw2 & Hg2).
      destruct (IH w2) as (w' & Hw').
      { rewrite Hg2. exact Hn. }
      exists w'. intros [|fuel] Hf; [lia | ].
      cbn. unfold bind at 1. cbn. rewrite Hr. unfold bind.
      fold w1. rewrite Hw2. apply Hw'. lia.
    + eexists. intros [|fuel] Hf; [lia | ].
      cbn. unfold bind. cbn. rewrite Hr. reflexivity.
Qed.

Section Convergence.

(** The containment visitor clears the graph of contained vertices in
    finitely many passes, and the small-repeat visitor stops reporting
    changes after finitely many passes. *)
Hypothesis containment_converges :
  forall g, exists n,
    do_hasContainment (Nat.iter n (after (visit containVisit)) g) = false.

Hypothesis small_repeats_converge :
  forall len g, exists n,
    returned (visit (smallRepeatVisit len))
             (Nat.iter n (after (visit (smallRepeatVisit len))) g) = false.

Lemma containment_loop_settles (body : M unit) :
  (forall w, exists w', body w = Ok tt w' /\
                        graph w' = after (visit containVisit) (graph w)) ->
  settles (fun fuel => while fuel (call hasContainment) body).
Proof.
  intros Hb w. destruct (containment_converges (graph w)) as [n Hn].
  destruct (while_settles hasContainment body
              (after (visit containVisit)) Hb n w Hn) as (w' & Hw').
  exists (S n), w'. intros fuel Hf. apply Hw'. lia.
Qed.

Lemma remove_containments_settles : settles remove_containments.
Proof.
  unfold remove_containments.
  apply (settles_bind (fun _ => cout _)).
  - apply settles_total, total_emit.
  - apply containment_loop_settles. intros w. cbn. eauto.
Qed.

Lemma remodel_graph_settles o : settles (remodel_graph o).
Proof.
  unfold remodel_graph. apply settles_when.
  apply (settles_bind (fun _ => cout _));
    [apply settles_total, total_emit | ].
  apply (settles_bind (fun _ => call _ ;; ret tt)
           (fun fuel => call _ ;; while fuel _ _ ;; _)).
  { apply settles_total. total_steps. }
  apply (settles_bind (fun _ => call _ ;; ret tt)
           (fun fuel => while fuel _ _ ;; _)).
  { apply settles_total. total_steps. }
  apply (settles_bind (fun fuel => while fuel _ _) (fun _ => _)).
  - apply containment_loop_settles. intros w. cbn. eauto.
  - apply settles_total. total_steps.
Qed.

Lemma resolve_small_repeats_settles o : settles (resolve_small_repeats o).
Proof.
  unfold resolve_small_repeats. apply settles_when.
  apply (settles_bind (fun _ => cout _));
    [apply settles_total, total_emit | ].
  apply (settles_bind (fun fuel => while fuel _ _) (fun _ => _)).
  - intros w.
    destruct (small_repeats_converge (opt.resolveSmallRepeatLen o) (graph w))
      as [n Hn].
    destruct (while_settles
                (visit (smallRepeatVisit (opt.resolveSmallRepeatLen o)))
                (ret tt) (fun g => g)
                (fun w0 => ex_intro _ w0 (conj eq_refl eq_refl)) n w Hn)
      as (w' & Hw').
    exists (S n), w'. intros fuel Hf. apply Hw'. lia.
  - apply settles_total. total_steps.
Qed.

Lemma pipeline_settles o : settles (pipeline o).
Proof.
  unfold pipeline.
  apply (settles_bind (fun _ => pre_assembly o)).
  { apply settles_total. unfold pre_assembly. total_steps. }
  apply settles_bind; [apply remove_containments_settles | ].
  apply (settles_bind (fun _ => transitive_reduction)).
  { apply settles_total. unfold transitive_reduction. total_steps. }
  apply (settles_bind (fun _ => validate_structure o)).
  { apply settles_total. unfold validate_structure. total_steps. }
  apply (settles_bind (fun _ => correct_reads o)).
  { apply settles_total. unfold correct_reads. total_steps. }
  apply settles_bind; [apply remodel_graph_settles | ].
  apply (settles_bind (fun _ => trim o)).
  { apply settles_total. unfold trim, countdown. total_steps. }
  apply (settles_bind (fun _ => smooth o)).
  { apply settles_total. unfold smooth, countdown. total_steps. }
  apply settles_bind; [apply resolve_small_repeats_settles | ].
  apply (settles_bind (fun _ => write_postmod)).
  { apply settles_total. unfold write_postmod. total_steps. }
  apply (settles_bind (fun _ => simplify_and_pop o) (fun _ => write_results o)).
  { apply settles_total. unfold simplify_and_pop, countdown. total_steps. }
  apply settles_total. unfold write_results. total_steps.
Qed.

(** X10: when the containment visitor clears every graph of contained
    vertices in finitely many passes and the small-repeat visitor
    stops reporting changes after finitely many passes, [assemble]
    returns: there is an amount of fuel from which on every run
    returns, always with the same log and graph. *)
Lemma assemble_returns o :
  exists n w, forall fuel, (n <= fuel)%nat -> assemble o fuel = Ok tt w.
Proof. unfold assemble. apply pipeline_settles. Qed.

End Convergence.

(** ** What the options do to [opt] *)

Lemma option_switch_fields it o die o' die' :
  option_switch it o die = Continue o' die' ->
  (Ascii.eqb (c it) "p" = false -> opt.prefix o' = opt.prefix o) /\
  (Ascii.eqb (c it) "o" = false -> opt.outFile o' = opt.outFile o) /\
  (Ascii.eqb (c it) "d" = false -> opt.debugFile o' = opt.debugFile o) /\
  (Ascii.eqb (c it) "a" = false -> opt.asqgOutfile o' = opt.asqgOutfile o) /\
  (Ascii.eqb (c it) "b" = false ->
     opt.numBubbleRounds o' = opt.numBubbleRounds o) /\
  (Ascii.eqb (c it) "t" = false -> opt.numTrimRounds o' = opt.numTrimRounds o) /\
  (Ascii.eqb (c it) "r" = false ->
     opt.resolveSmallRepeatLen o' = opt.resolveSmallRepeatLen o) /\
  opt.asqgFile o' = opt.asqgFile o /\
  opt.bSmoothGraph o' = opt.bSmoothGraph o || Ascii.eqb (c it) "s" /\
  opt.bCorrectReads o' = opt.bCorrectReads o || Ascii.eqb (c it) "c" /\
  opt.bRemodelGraph o' = opt.bRemodelGraph o || Ascii.eqb (c it) "z" /\
  opt.bEdgeStats o' = opt.bEdgeStats o || Ascii.eqb (c it) "x" /\
  opt.bExact o' = opt.bExact o || Ascii.eqb (c it) "e" /\
  opt.bValidate o' = opt.bValidate o || Ascii.eqb (c it) OPT_VALIDATE /\
  opt.verbose o' =
    (if Ascii.eqb (c it) "v" then (opt.verbose o + 1) mod 2 ^ 32
     else opt.verbose o).
Proof.
  unfold option_switch. destruct it as [ch arg].
  destruct ch as [[] [] [] [] [] [] [] []]; cbn;
    intros H; try discriminate H; injection H as <- <-; cbn;
    rewrite ?orb_false_r, ?orb_true_r;
    repeat split; intros; try discriminate; reflexivity.
Qed.

Lemma option_loop_kept {A} (f : opt.t -> A) (ch : ascii) :
  (forall it o die o' die',
      option_switch it o die = Continue o' die' ->
      Ascii.eqb (c it) ch = false -> f o' = f o) ->
  forall items o die o' die',
    option_loop items o die = Continue o' die' ->
    has ch items = false -> f o' = f o.
Proof.
  intros Hstep. unfold has.
  induction items as [|it items IH]; intros o die o' die' H Hn; cbn in *.
  - now injection H as <- <-.
  - destruct (option_switch it o die) as [o1 die1|status e] eqn:Hs;
      [ | discriminate].
    apply orb_false_elim in Hn. destruct Hn as [Hn1 Hn2].
    rewrite (IH _ _ _ _ H Hn2). exact (Hstep _ _ _ _ _ Hs Hn1).
Qed.

Lemma option_loop_flag (f : opt.t -> bool) (ch : ascii) :
  (forall it o die o' die',
      option_switch it o die = Continue o' die' ->
      f o' = f o || Ascii.eqb (c it) ch) ->
  forall items o die o' die',
    option_loop items o die = Continue o' die' ->
    f o' = f o || has ch items.
Proof.
  intros Hstep. unfold has.
  induction items as [|it items IH]; intros o die o' die' H; cbn in *.
  - injection H as <- <-. now rewrite orb_false_r.
  - destruct (option_switch it o die) as [o1 die1|status e] eqn:Hs;
      [ | discriminate].
    rewrite (IH _ _ _ _ H), (Hstep _ _ _ _ _ Hs), orb_assoc. reflexivity.
Qed.

Lemma option_loop_verbose items : forall o die o' die',
  option_loop items o die = Continue o' die' ->
  0 <= opt.verbose o < 2 ^ 32 ->
  opt.verbose o' =
    (opt.verbose o + Z.of_nat (occurrences "v" items)) mod 2 ^ 32.
Proof.
  unfold occurrences.
  induction items as [|it items IH]; intros o die o' die' H Hr; cbn in H.
  - injection H as <- <-. cbn. rewrite Z.add_0_r, Z.mod_small; auto.
  - destruct (option_switch it o die) as [o1 die1|status e] eqn:Hs;
      [ | discriminate].
    apply option_switch_fields in Hs.
    destruct Hs as (_ & _ & _ & _ & _ & _ & _ & _ & _ & _ & _ & _ & _ & _ & Hv).
    cbn [filter]. destruct (Ascii.eqb (c it) "v").
    + rewrite (IH _ _ _ _ H), Hv.
      * cbn [List.length]. rewrite Nat2Z.inj_succ, Zplus_mod_idemp_l.
        f_equal. lia.
      * rewrite Hv. apply Z.mod_pos_bound. lia.
    + rewrite (IH _ _ _ _ H); rewrite Hv; auto.
Qed.

Lemma option_loop_asqgFile items : forall o die o' die',
  option_loop items o die = Continue o' die' ->
  opt.asqgFile o' = opt.asqgFile o.
Proof.
  induction items as [|it items IH]; intros o die o' die' H; cbn in H.
  - now injection H as <- <-.
  - destruct (option_switch it o die) as [o1 die1|status e] eqn:Hs;
      [ | discriminate].
    rewrite (IH _ _ _ _ H). apply option_switch_fields in Hs. tauto.
Qed.

(** What a successful parse went through: the option loop ran to its
    end without [die], and there is exactly one operand. *)
Lemma parsed_inv cl o0 o :
  parseAssembleOptions cl o0 = Parsed o ->
  exists o1 f,
    option_loop (options cl)
      (opt.set_minOverlap 0 (opt.set_outFile "contigs.fa" o0)) false
      = Continue o1 false /\
    operands cl = [f] /\
    o = opt.set_asqgFile f o1.
Proof.
  unfold parseAssembleOptions. intros Hp.
  destruct (option_loop (options cl) _ false) as [o1 die|status e];
    [ | discriminate].
  destruct (Z.ltb_spec (Z.of_nat (List.length (operands cl))) 1) as [E1|E1];
    [discriminate | ].
  destruct (Z.gtb_spec (Z.of_nat (List.length (operands cl))) 1) as [E2|E2];
    [discriminate | ].
  destruct die; [discriminate | ]. injection Hp as <-.
  destruct (operands cl) as [|f [|f' rest]]; cbn [List.length hd] in *;
    [lia | eauto | lia].
Qed.

Ltac switch_field :=
  let H := fresh "H" in
  intros ? ? ? ? ? H; apply option_switch_fields in H; tauto.

(** X1: an option with a value that is absent from the command line
    leaves the default: contigs.fa for the contig file, the empty
    string for the prefix, the debug file and the graph output file,
    0 for the trim and bubble rounds and -1 (no resolution) for the
    small-repeat length. *)
Theorem defaults_of_absent_options (cl : CommandLine) (o : opt.t) :
  parseAssembleOptions cl opt.statics = Parsed o ->
  (has "o" (options cl) = false -> opt.outFile o = "contigs.fa"%string) /\
  (has "p" (options cl) = false -> opt.prefix o = ""%string) /\
  (has "d" (options cl) = false -> opt.debugFile o = ""%string) /\
  (has "a" (options cl) = false -> opt.asqgOutfile o = ""%string) /\
  (has "t" (options cl) = false -> opt.numTrimRounds o = 0) /\
  (has "b" (options cl) = false -> opt.numBubbleRounds o = 0) /\
  (has "r" (options cl) = false -> opt.resolveSmallRepeatLen o = -1).
Proof.
  intros Hp. destruct (parsed_inv _ _ _ Hp) as (o1 & f & Hl & _ & ->).
  repeat split; intros Hn; cbn.
  - apply (option_loop_kept opt.outFile "o" ltac:(switch_field) _ _ _ _ _ Hl Hn).
  - apply (option_loop_kept opt.prefix "p" ltac:(switch_field) _ _ _ _ _ Hl Hn).
  - apply (option_loop_kept opt.debugFile "d" ltac:(switch_field) _ _ _ _ _ Hl Hn).
  - apply (option_loop_kept opt.asqgOutfile "a" ltac:(switch_field)
             _ _ _ _ _ Hl Hn).
  - apply (option_loop_kept opt.numTrimRounds "t" ltac:(switch_field)
             _ _ _ _ _ Hl Hn).
  - apply (option_loop_kept opt.numBubbleRounds "b" ltac:(switch_field)
             _ _ _ _ _ Hl Hn).
  - apply (option_loop_kept opt.resolveSmallRepeatLen "r" ltac:(switch_field)
             _ _ _ _ _ Hl Hn).
Qed.

(** X2: after a successful parse each switch is on exactly when its
    option is on the command line; no option turns a switch off. *)
Theorem switches_follow_options (cl : CommandLine) (o : opt.t) :
  parseAssembleOptions cl opt.statics = Parsed o ->
  opt.bSmoothGraph o = has "s" (options cl) /\
  opt.bCorrectReads o = has "c" (options cl) /\
  opt.bRemodelGraph o = has "z" (options cl) /\
  opt.bEdgeStats o = has "x" (options cl) /\
  opt.bExact o = has "e" (options cl) /\
  opt.bValidate o = has OPT_VALIDATE (options cl).
Proof.
  intros Hp. destruct (parsed_inv _ _ _ Hp) as (o1 & f & Hl & _ & ->).
  repeat split; cbn.
  - apply (option_loop_flag opt.bSmoothGraph "s" ltac:(switch_field)
             _ _ _ _ _ Hl).
  - apply (option_loop_flag opt.bCorrectReads "c" ltac:(switch_field)
             _ _ _ _ _ Hl).
  - apply (option_loop_flag opt.bRemodelGraph "z" ltac:(switch_field)
             _ _ _ _ _ Hl).
  - apply (option_loop_flag opt.bEdgeStats "x" ltac:(switch_field)
             _ _ _ _ _ Hl).
  - apply (option_loop_flag opt.bExact "e" ltac:(switch_field) _ _ _ _ _ Hl).
  - apply (option_loop_flag opt.bValidate OPT_VALIDATE ltac:(switch_field)
             _ _ _ _ _ Hl).
Qed.

(** X3: the verbosity is the number of -v on the command line, counted
    in an unsigned 32-bit integer. *)
Theorem verbose_counts_v (cl : CommandLine) (o : opt.t) :
  parseAssembleOptions cl opt.statics = Parsed o ->
  opt.verbose o = Z.of_nat (occurrences "v" (options cl)) mod 2 ^ 32.
Proof.
  intros Hp. destruct (parsed_inv _ _ _ Hp) as (o1 & f & Hl & _ & ->).
  cbn. rewrite (option_loop_verbose _ _ _ _ _ Hl); cbn; [reflexivity | lia].
Qed.

(** X4: the options are parsed if and only if neither --help nor
    --version is given, no option is unknown and there is exactly one
    operand; the operand is then the ASQG file. *)
Theorem parse_succeeds_iff (cl : CommandLine) (o0 : opt.t) :
  ((exists o, parseAssembleOptions cl o0 = Parsed o) <->
   existsb is_help_or_version (options cl) = false /\
   has "?" (options cl) = false /\
   List.length (operands cl) = 1%nat) /\
  (forall o, parseAssembleOptions cl o0 = Parsed o ->
             operands cl = [opt.asqgFile o]).
Proof.
  split; [split | ].
  - intros [o Hp]. destruct (parsed_inv _ _ _ Hp) as (o1 & f & Hl & Hops & ->).
    pose proof (option_loop_no_exit _ _ _ _ _ Hl) as Hh.
    destruct (option_loop_continue (options cl)
                (opt.set_minOverlap 0 (opt.set_outFile "contigs.fa" o0))
                false Hh) as (o2 & Ho2 & _).
    rewrite Hl in Ho2. injection Ho2 as _ Hd. cbn in Hd.
    repeat split; [exact Hh | symmetry; exact Hd | now rewrite Hops].
  - intros (Hh & Hu & Hn).
    pose proof (parse_without_help cl o0 Hh) as Hp.
    unfold usage_error in Hp. rewrite Hn in Hp.
    unfold has in Hu. unfold is_unknown in Hp.
    cbn in Hp. rewrite Hu in Hp. exact Hp.
  - intros o Hp. destruct (parsed_inv _ _ _ Hp) as (o1 & f & Hl & Hops & ->).
    now rewrite Hops.
Qed.

Lemma option_loop_app pre : forall post o die,
  existsb is_help_or_version pre = false ->
  exists o', option_loop (pre ++ post) o die =
             option_loop post o' (die || existsb is_unknown pre).
Proof.
  induction pre as [|it pre IH]; intros post o die Hh; cbn in *.
  - exists o. now rewrite orb_false_r.
  - apply orb_false_elim in Hh. destruct Hh as [Hit Hpre].
    destruct (option_switch_continue it o die Hit) as (o1 & -> & _).
    destruct (IH post o1 (die || is_unknown it) Hpre) as (o2 & ->).
    exists o2. now rewrite orb_assoc.
Qed.

(** X5: the first --help or --version on the command line decides:
    its text is printed on the standard output and the exit code is 0,
    whatever precedes it (unknown options included), whatever follows
    it and however many operands there are; the graph is not loaded. *)
Theorem first_help_or_version_decides
        (pre post : list GetoptItem) (it : GetoptItem)
        (ops : list string) (fuel : nat) :
  existsb is_help_or_version pre = false ->
  is_help_or_version it = true ->
  assembleMain {| options := pre ++ it :: post; operands := ops |} fuel =
  Exits EXIT_SUCCESS
        [Cout (if Ascii.eqb (c it) OPT_HELP
               then ASSEMBLE_USAGE_MESSAGE else ASSEMBLE_VERSION_MESSAGE)].
Proof.
  intros Hpre Hit. unfold assembleMain, parseAssembleOptions. cbn [options].
  destruct (option_loop_app pre (it :: post)
              (opt.set_minOverlap 0 (opt.set_outFile "contigs.fa" opt.statics))
              false Hpre) as (o1 & ->).
  cbn [option_loop].
  assert (Hs : forall o die,
             option_switch it o die =
             ExitNow EXIT_SUCCESS
               (Cout (if Ascii.eqb (c it) OPT_HELP
                      then ASSEMBLE_USAGE_MESSAGE
                      else ASSEMBLE_VERSION_MESSAGE))).
  { intros o die. revert Hit. unfold is_help_or_version, option_switch.
    destruct it as [ch arg].
    destruct ch as [[] [] [] [] [] [] [] []]; cbn; intros Hh;
      try discriminate Hh; reflexivity. }
  rewrite Hs. reflexivity.
Qed.

(** ** More on the order of the calls *)

Lemma prefix_of_nil {A} (l : list A) : prefix_of l [] -> l = [].
Proof. intros [rest H]. symmetry in H. now apply app_eq_nil in H. Qed.

(** X6: the contigs are written once, to the configured file, by the
    last visitor of the run: after the last compaction, after the
    vertices are renamed and after final.dot is written.  The only
    other FASTA output is the corrected reads, written only when
    correction is enabled. *)
Theorem contigs_written_after_compaction (o : opt.t) (fuel : nat) :
  let target :=
    (if opt.bCorrectReads o
     then [Did (visit (fastaVisitor "correctedReads.fa"))] else []) ++
    [Did simplify] ++
    (if opt.numBubbleRounds o >? 0
     then repeat (Did (visit bubbleVisit)) (Z.to_nat (opt.numBubbleRounds o))
          ++ [Did simplify]
     else []) ++
    [Did (renameVertices "contig-"); Did (writeDot "final.dot");
     Did (visit (fastaVisitor (opt.outFile o)))] in
  prefix_of (filter is_output (calls (log (world_of (assemble o fuel)))))
            target /\
  (forall w, assemble o fuel = Ok tt w ->
             filter is_output (calls (log w)) = target).
Proof.
  cbv zeta. by_projection is_output o fuel. unfold rounds.
  destruct (opt.bCorrectReads o), (opt.numBubbleRounds o >? 0); cbn;
    rewrite <- ?app_assoc; cbn; auto.
Qed.

(** X7: exact mode is switched on, when asked for, by the first call
    on the graph; the comparison with the debug file and the edge
    statistics run only when asked for, in this order, after the
    memory report and before containment removal. *)
Theorem preparation_before_reduction (o : opt.t) (fuel : nat) :
  exists k1 k2,
    let target :=
      (if opt.bExact o then [Did (setExactMode true)] else []) ++
      [Did printMemSize] ++
      (if negb (empty (opt.debugFile o))
       then [Did (visit (debugGraphVisit (opt.debugFile o)))] else []) ++
      (if opt.bEdgeStats o then [Did (visit edgeStatsVisit)] else []) ++
      repeat (Did (visit containVisit)) k1 ++ [Did (visit trVisit)] ++
      (if opt.bRemodelGraph o
       then repeat (Did (visit containVisit)) k2 ++ [Did (visit trVisit)]
       else []) in
    prefix_of (filter is_preparation
                      (calls (log (world_of (assemble o fuel)))))
              target /\
    (forall w, assemble o fuel = Ok tt w ->
       filter is_preparation (calls (log w)) = target /\
       exists cs,
         calls (log w) =
         (if opt.bExact o then [Did (setExactMode true)] else []) ++
         Did printMemSize :: cs).
Proof.
  cbv zeta.
  destruct (assemble_calls o fuel) as (k1 & k2 & k3 & rest & He & Hr).
  exists k1, k2.
  assert (Hf : filter is_preparation (pipeline_calls o k1 k2 k3) =
               (if opt.bExact o then [Did (setExactMode true)] else []) ++
               [Did printMemSize] ++
               (if negb (empty (opt.debugFile o))
                then [Did (visit (debugGraphVisit (opt.debugFile o)))]
                else []) ++
               (if opt.bEdgeStats o then [Did (visit edgeStatsVisit)] else []) ++
               repeat (Did (visit containVisit)) k1 ++ [Did (visit trVisit)] ++
               (if opt.bRemodelGraph o
                then repeat (Did (visit containVisit)) k2 ++
                     [Did (visit trVisit)]
                else [])).
  { project.
    destruct (opt.bExact o), (negb (empty (opt.debugFile o))),
      (opt.bEdgeStats o), (opt.bRemodelGraph o); cbn;
      rewrite <- ?app_assoc; cbn; rewrite ?app_nil_r; reflexivity. }
  split.
  - exists (filter is_preparation rest).
    rewrite <- Hf, He. apply filter_app.
  - intros w Hw. pose proof (Hr w Hw) as ->. rewrite app_nil_r in He.
    rewrite Hw in He. cbn in He. rewrite <- He. split; [exact Hf | ].
    unfold pipeline_calls, pre_assembly_calls.
    rewrite <- !app_assoc. cbn. eauto.
Qed.

(** X8: a stage that is not enabled is not run at all: no trimming
    when the number of trim rounds is 0 or negative, no smoothing, no
    error correction and no remodelling without their switches. *)
Theorem disabled_stages_are_skipped (o : opt.t) (fuel : nat) :
  let cs := calls (log (world_of (assemble o fuel))) in
  (opt.numTrimRounds o <= 0 -> filter is_trim cs = []) /\
  (opt.bSmoothGraph o = false -> filter is_smoothing cs = []) /\
  (opt.bCorrectReads o = false -> filter is_correction cs = []) /\
  (opt.bRemodelGraph o = false -> filter is_remodel cs = []).
Proof.
  cbv zeta. repeat split.
  - intros Hn. apply prefix_of_nil. by_projection is_trim o fuel.
    destruct (Z.gtb_spec (opt.numTrimRounds o) 0); [lia | auto].
  - intros Hn. apply prefix_of_nil. by_projection is_smoothing o fuel.
    rewrite Hn. auto.
  - intros Hn. apply prefix_of_nil. by_projection is_correction o fuel.
    rewrite Hn. auto.
  - intros Hn. apply prefix_of_nil. by_projection is_remodel o fuel.
    rewrite Hn. auto.
Qed.

(** X14: the bubble-edge visitor and the paired-end path visitor are
    declared in [assemble] but never applied to the graph, in any run
    and under any options. *)
Theorem declared_visitors_never_applied (o : opt.t) (fuel : nat) :
  filter is_declared_only (calls (log (world_of (assemble o fuel)))) = [].
Proof.
  apply prefix_of_nil. by_projection is_declared_only o fuel. auto.
Qed.

(** ** The life of the graph *)

Lemma ends_ret {A} (phi : Event -> Prop) (a : A) : ends_with phi [] (ret a).
Proof. intros w. cbn. exists []. now rewrite !app_nil_r. Qed.

Lemma ends_emit (phi : Event -> Prop) (e : Event) :
  phi e -> ends_with phi [] (emit e).
Proof. intros He w. cbn. exists [e]. rewrite app_nil_r. auto. Qed.

Lemma ends_emit_tail (phi : Event -> Prop) (e : Event) :
  ends_with phi [e] (emit e).
Proof. intros w. cbn. exists []. auto. Qed.

Lemma ends_call (phi : Event -> Prop) (m : Method) :
  (forall g, phi (Call m g)) -> ends_with phi [] (call m).
Proof. intros Hm w. cbn. exists [Call m (graph w)]. rewrite app_nil_r. auto. Qed.

Lemma ends_bind {A B} (phi : Event -> Prop) tail (m : M A) (f : A -> M B) :
  ends_with phi [] m -> (forall a, ends_with phi tail (f a)) ->
  ends_with phi tail (bind m f).
Proof.
  intros H1 H2 w. specialize (H1 w). unfold bind.
  destruct (m w) as [a w1|w1].
  - destruct H1 as (e1 & Hl1 & Hp1). rewrite app_nil_r in Hl1.
    specialize (H2 a w1).
    destruct (f a w1) as [b w2|w2]; destruct H2 as (e2 & Hl2 & Hp2);
      exists (e1 ++ e2); rewrite Hl2, Hl1, <- ?app_assoc;
      (split; [reflexivity | apply Forall_app; auto]).
  - exact H1.
Qed.

Lemma ends_when (phi : Event -> Prop) (b : bool) (m : M unit) :
  ends_with phi [] m -> ends_with phi [] (when b m).
Proof. destruct b; cbn; [auto | intros _; apply ends_ret]. Qed.

Lemma ends_times (phi : Event -> Prop) (n : nat) (body : M unit) :
  ends_with phi [] body -> ends_with phi [] (times n body).
Proof.
  intros Hb. induction n; cbn; [apply ends_ret | ].
  apply ends_bind; auto.
Qed.

Lemma ends_while (phi : Event -> Prop) (fuel : nat) (cond : M bool)
      (body : M unit) :
  ends_with phi [] cond -> ends_with phi [] body ->
  ends_with phi [] (while fuel cond body).
Proof.
  intros Hc Hb. induction fuel as [|fuel IH]; cbn.
  - intros w. exists []. now rewrite app_nil_r.
  - apply ends_bind; [exact Hc | ]. intros [].
    + apply ends_bind; auto.
    + apply ends_ret.
Qed.

Ltac ends_steps :=
  repeat first
    [ apply ends_ret
    | apply ends_emit; exact I
    | apply ends_call; intros ?; exact I
    | apply ends_when
    | apply ends_times
    | apply ends_while
    | apply ends_emit_tail
    | apply ends_bind; [ | intros ? ] ].

Lemma pipeline_ends o fuel :
  ends_with on_live_graph [DeleteGraph] (pipeline o fuel).
Proof.
  unfold pipeline, pre_assembly, remove_containments, transitive_reduction,
    validate_structure, correct_reads, remodel_graph, trim, smooth,
    resolve_small_repeats, write_postmod, simplify_and_pop, write_results,
    countdown, cout.
  ends_steps.
Qed.

(** X9: the graph is loaded once, before anything else is done; every
    call on it comes after the load and before the graph is deleted;
    the deletion is the last event of a run that returns, and a run
    that does not return never deletes the graph. *)
Theorem graph_loaded_first_deleted_last (o : opt.t) (fuel : nat) :
  exists ext,
    Forall on_live_graph ext /\
    log (world_of (assemble o fuel)) =
      Load (opt.asqgFile o) (opt.minOverlap o) true :: ext ++
      match assemble o fuel with
      | Ok _ _ => [DeleteGraph]
      | OutOfFuel _ => []
      end.
Proof.
  unfold assemble. pose proof (pipeline_ends o fuel (loaded o)) as H.
  fold (loaded o).
  destruct (pipeline o fuel (loaded o)) as [a w|w];
    destruct H as (ext & Hl & Hp); exists ext; cbn in *;
    rewrite Hl, ?app_nil_r; auto.
Qed.

(** ** A containment that is never removed *)

Lemma containment_loop_stuck (fuel : nat) :
  (forall g, do_hasContainment g = true ->
             do_hasContainment (after (visit containVisit) g) = true) ->
  forall w, do_hasContainment (graph w) = true ->
    exists w',
      while fuel (call hasContainment) (call (visit containVisit) ;; ret tt) w
        = OutOfFuel w' /\
      calls (log w') =
        calls (log w) ++
        concat (repeat [Got hasContainment true; Did (visit containVisit)] fuel).
Proof.
  intros Hstep. induction fuel as [|fuel IH]; intros w Hw.
  - exists w. cbn. now rewrite app_nil_r.
  - cbn. unfold bind. cbn. rewrite Hw.
    destruct (IH {| graph := fst (do_visit containVisit (graph w));
                    log := (log w ++ [Call hasContainment (graph w)]) ++
                           [Call (visit containVisit) (graph w)] |})
      as (w' & Hw' & Hc).
    { cbn. apply (Hstep _ Hw). }
    exists w'. split; [exact Hw' | ].
    rewrite Hc. cbn. rewrite !calls_snoc. cbn. rewrite Hw.
    rewrite <- !app_assoc. reflexivity.
Qed.

(** X11: when the graph has a containment as the first loop is
    entered and the containment visitor never clears the flag, the
    pipeline never leaves that loop: for every amount of fuel the run
    is still in it, having made the calls of the preparation and then
    only tests of [hasContainment] and containment visits; transitive
    reduction is never reached. *)
Theorem unremovable_containment_never_returns (o : opt.t) (fuel : nat) :
  (forall g, do_hasContainment g = true ->
             do_hasContainment (after (visit containVisit) g) = true) ->
  do_hasContainment (graph (world_of (pre_assembly o (loaded o)))) = true ->
  exists w,
    assemble o fuel = OutOfFuel w /\
    calls (log w) =
      pre_assembly_calls o ++
      concat (repeat [Got hasContainment true; Did (visit containVisit)] fuel).
Proof.
  intros Hstep Hentry.
  assert (Ht : total (pre_assembly o))
    by (unfold pre_assembly; total_steps).
  destruct (Ht (loaded o)) as ([] & w1 & Hw1).
  destruct (pre_assembly_emits o (loaded o)) as (cs & rest & Hcs & Hc & Hrest).
  rewrite Hw1 in Hc, Hentry. cbn in Hc, Hentry.
  rewrite (Hrest tt w1 Hw1), app_nil_r in Hcs. subst cs.
  destruct (containment_loop_stuck fuel Hstep
              {| graph := graph w1;
                 log := log w1 ++ [Cout ("Removing contained vertices" ++ nl)] |}
              Hentry) as (w' & Hw' & Hcw').
  exists w'. split.
  - unfold assemble. fold (loaded o). unfold pipeline, bind at 1.
    rewrite Hw1. unfold bind at 1. unfold remove_containments, bind at 1.
    cbn. cbn in Hw'. rewrite Hw'. reflexivity.
  - rewrite Hcw'. cbn. rewrite calls_snoc, Hc. cbn.
    rewrite app_nil_r. reflexivity.
Qed.

(** ** From the command line to the stages *)

Lemma core_only_fields cl o :
  core_only (options cl) = true ->
  parseAssembleOptions cl opt.statics = Parsed o ->
  opt.bCorrectReads o = false /\ opt.bRemodelGraph o = false /\
  opt.numTrimRounds o = 0 /\ opt.bSmoothGraph o = false /\
  opt.resolveSmallRepeatLen o = -1 /\ opt.numBubbleRounds o = 0 /\
  opt.asqgOutfile o = ""%string.
Proof.
  unfold core_only. intros Hc Hp. apply negb_true_iff in Hc.
  repeat (apply orb_false_elim in Hc; destruct Hc as [Hc ?]).
  destruct (parsed_inv _ _ _ Hp) as (o1 & f & Hl & _ & ->). cbn.
  repeat split.
  - rewrite (option_loop_flag opt.bCorrectReads "c" ltac:(switch_field)
               _ _ _ _ _ Hl). cbn. assumption.
  - rewrite (option_loop_flag opt.bRemodelGraph "z" ltac:(switch_field)
               _ _ _ _ _ Hl). cbn. assumption.
  - now rewrite (option_loop_kept opt.numTrimRounds "t" ltac:(switch_field)
                   _ _ _ _ _ Hl).
  - rewrite (option_loop_flag opt.bSmoothGraph "s" ltac:(switch_field)
               _ _ _ _ _ Hl). cbn. assumption.
  - now rewrite (option_loop_kept opt.resolveSmallRepeatLen "r"
                   ltac:(switch_field) _ _ _ _ _ Hl).
  - now rewrite (option_loop_kept opt.numBubbleRounds "b" ltac:(switch_field)
                   _ _ _ _ _ Hl).
  - now rewrite (option_loop_kept opt.asqgOutfile "a" ltac:(switch_field)
                   _ _ _ _ _ Hl).
Qed.

(** X12: a command line without -c, --remodel, -t, -s, -r, -b and -a
    runs the core pipeline only: when [assembleMain] returns, the
    stages it has run are the containment removal, one transitive
    reduction and one compaction, and the only snapshot is postmod,
    written between the reduction and the compaction. *)
Theorem core_pipeline_by_default (cl : CommandLine) (fuel : nat)
        (code : Z) (tr : list Event) :
  core_only (options cl) = true ->
  assembleMain cl fuel = Returns code tr ->
  exists k,
    filter is_stage_or_snapshot (calls tr) =
    repeat (Did (visit containVisit)) k ++
    [Did (visit trVisit); Did (writeASQG "postmod.asqg.gz"); Did simplify;
     Did (renameVertices "contig-")].
Proof.
  intros Hc. unfold assembleMain.
  destruct (parseAssembleOptions cl opt.statics) as [o|status out] eqn:Hp;
    [ | discriminate].
  destruct (assemble o fuel) as [[] w|w] eqn:Ha; [ | discriminate].
  intros Hr. injection Hr as _ <-.
  destruct (core_only_fields cl o Hc Hp)
    as (H1 & H2 & H3 & H4 & H5 & H6 & H7).
  by_projection is_stage_or_snapshot o fuel.
  rewrite H1, H2, H3, H4, H5, H6, H7. cbn.
  intros _ Hret. exists k1. rewrite (Hret w Ha). reflexivity.
Qed.

End AssembleProofs.

(** ** The text of a history item *)

Lemma length_append (s t : string) :
  String.length (s ++ t)%string = (String.length s + String.length t)%nat.
Proof. induction s as [|a s IH]; cbn; [reflexivity | now rewrite IH]. Qed.

Lemma append_same_length (s1 s2 t1 t2 : string) :
  (s1 ++ t1 = s2 ++ t2)%string ->
  String.length t1 = String.length t2 ->
  s1 = s2 /\ t1 = t2.
Proof.
  revert s2. induction s1 as [|a s1 IH]; intros [|b s2] H Hlen; cbn in H.
  - auto.
  - exfalso. apply (f_equal String.length) in H. cbn in H.
    rewrite length_append in H. lia.
  - exfalso. apply (f_equal String.length) in H. cbn in H.
    rewrite length_append in H. lia.
  - injection H as -> H. destruct (IH _ H Hlen) as [-> ->]. auto.
Qed.

Lemma put_int_injective (n m : Z) :
  SearchHistory.put_int n = SearchHistory.put_int m -> n = m.
Proof.
  unfold SearchHistory.put_int. intros H.
  assert (Hnorm : forall z, NilZero.int_of_string
                              (NilZero.string_of_int (Z.to_int z))
                            = Some (Z.to_int z)).
  { intros z. apply NilZero.isi; destruct z; cbn; try discriminate;
      intros [= E]; now apply DecimalPos.Unsigned.to_uint_nonnil in E. }
  pose proof (Hnorm n) as Hn. rewrite H, Hnorm in Hn.
  injection Hn as Hn. rewrite <- (DecimalZ.of_to n), <- (DecimalZ.of_to m).
  now rewrite Hn.
Qed.

(** X13: the text written for a history item determines the item: two
    items with the same text have the same position and the same
    base, also when the base is a comma or a digit. *)
Theorem history_item_text_injective (h1 h2 : SearchHistory.HistoryItem) :
  SearchHistory.put h1 = SearchHistory.put h2 -> h1 = h2.
Proof.
  destruct h1 as [p1 b1], h2 as [p2 b2]. unfold SearchHistory.put. cbn.
  intros H. apply append_same_length in H; [ | reflexivity].
  destruct H as [Hp Hb]. apply put_int_injective in Hp.
  injection Hb as ->. now subst.
Qed.


(** ** Runs of the example instance *)

Lemma stats_keeps_free_example :
  forall g, @do_hasContainment Example.api g = false ->
            @do_hasContainment Example.api
              (fst (@do_visit Example.api statsVisit g)) = false.
Proof. intros g Hg. exact Hg. Defined.

Lemma reduction_only_without_containment_witness :
  @do_hasContainment Example.api (0%nat, 2%nat) = false.
Proof.
  apply (proj1 (@reduction_only_without_containment
                  Example.platform Example.api stats_keeps_free_example
                  (opt.set_bRemodelGraph true opt.statics) 10)).
  vm_compute. tauto.
Defined.

Lemma compaction_then_bubbles_witness :
  exists w,
    Run.asm (opt.set_numBubbleRounds 2 opt.statics) 10 = Ok tt w /\
    filter is_compaction (calls (log w)) =
    [Did simplify; Did (visit bubbleVisit); Did (visit bubbleVisit);
     Did simplify].
Proof.
  eexists. split; [vm_compute; reflexivity | ].
  apply (proj2 (@compaction_then_bubbles Example.platform Example.api
                  (opt.set_numBubbleRounds 2 opt.statics) 10)).
  vm_compute. reflexivity.
Defined.

Lemma remodel_then_reduce_again_witness :
  exists k1 k2 w,
    Run.asm (opt.set_bRemodelGraph true opt.statics) 10 = Ok tt w /\
    filter is_reduction (calls (log w)) =
    loop_calls hasContainment [Did (visit containVisit)] k1 ++
    [Did (visit trVisit)] ++ [Did (visit remodelVisit)] ++
    loop_calls hasContainment [Did (visit containVisit)] k2 ++
    [Did (visit trVisit)].
Proof.
  destruct (@remodel_then_reduce_again Example.platform Example.api
              (opt.set_bRemodelGraph true opt.statics) 10 eq_refl)
    as (k1 & k2 & _ & Hret).
  exists k1, k2. eexists. split; [vm_compute; reflexivity | ].
  apply Hret. vm_compute. reflexivity.
Defined.

Lemma trim_rounds_fixed_witness :
  0 < opt.numTrimRounds (opt.set_numTrimRounds 3 opt.statics) /\
  exists w,
    Run.asm (opt.set_numTrimRounds 3 opt.statics) 10 = Ok tt w /\
    filter is_trim (calls (log w)) =
    [Did (visit trimVisit); Did (visit trimVisit); Did (visit trimVisit)].
Proof.
  split; [reflexivity | ].
  eexists. split; [vm_compute; reflexivity | ].
  apply (proj2 (@trim_rounds_fixed Example.platform Example.api
                  (opt.set_numTrimRounds 3 opt.statics) 10 eq_refl)).
  vm_compute. reflexivity.
Defined.

Lemma smoothing_rounds_fixed_witness :
  opt.bSmoothGraph (opt.set_bSmoothGraph true opt.statics) = true /\
  exists w,
    Run.asm (opt.set_bSmoothGraph true opt.statics) 10 = Ok tt w /\
    List.length (filter is_smoothing (calls (log w))) = 4%nat.
Proof.
  split; [reflexivity | ].
  eexists. split; [vm_compute; reflexivity | ].
  rewrite (proj2 (@smoothing_rounds_fixed Example.platform Example.api
                    (opt.set_bSmoothGraph true opt.statics) 10 eq_refl)).
  - reflexivity.
  - vm_compute. reflexivity.
Defined.

Lemma usage_error_exits_nonzero_witness :
  existsb is_help_or_version (options Run.bogus) = false /\
  usage_error Run.bogus = true /\
  Run.main Run.bogus 10 =
    Exits 1 [Cerr ("Try `assemble --help' for more information." ++ nl)].
Proof.
  split; [reflexivity | ]. split; [reflexivity | ].
  apply (proj1 (proj2 (@usage_error_exits_nonzero
                         Example.platform Example.api Run.bogus 10))
           eq_refl eq_refl).
Defined.

Lemma min_overlap_defaults_to_0_witness :
  existsb is_min_overlap (options Run.plain) = false /\
  exists o,
    @parseAssembleOptions Example.platform Example.api Run.plain opt.statics
      = Parsed o /\
    opt.minOverlap o = 0.
Proof.
  split; [reflexivity | ].
  eexists. split; [vm_compute; reflexivity | ].
  apply (proj1 (@min_overlap_defaults_to_0 Example.platform Example.api
                  Run.plain opt.statics _ 10 eq_refl eq_refl)).
Defined.

Lemma small_repeats_to_fixed_point_witness :
  exists k w,
    Run.asm (opt.set_resolveSmallRepeatLen 5 opt.statics) 10 = Ok tt w /\
    filter is_small_repeat (calls (log w)) =
    repeat (Got (visit (smallRepeatVisit 5)) true) k ++
    [Got (visit (smallRepeatVisit 5)) false].
Proof.
  destruct (@small_repeats_to_fixed_point Example.platform Example.api
              (opt.set_resolveSmallRepeatLen 5 opt.statics) 10)
    as (k & _ & Hret).
  exists k. eexists. split; [vm_compute; reflexivity | ].
  apply Hret. vm_compute. reflexivity.
Defined.

Lemma validation_once_after_reduction_witness :
  exists k1 w,
    Run.asm (opt.set_bValidate true opt.statics) 10 = Ok tt w /\
    filter is_stage_or_check (calls (log w)) =
    repeat (Did (visit containVisit)) k1 ++
    [Did (visit trVisit); Did (visit validationVisit); Did simplify].
Proof.
  destruct (@validation_once_after_reduction Example.platform Example.api
              (opt.set_bValidate true opt.statics) 10)
    as (k1 & k2 & k3 & _ & Hret).
  exists k1. eexists. split; [vm_compute; reflexivity | ].
  apply Hret. vm_compute. reflexivity.
Defined.

Lemma snapshots_after_their_stage_witness :
  exists k1 k2 w,
    Run.asm (opt.set_asqgOutfile "final.asqg"
               (opt.set_bRemodelGraph true
                  (opt.set_bCorrectReads true opt.statics))) 10 = Ok tt w /\
    filter is_stage_or_snapshot (calls (log w)) =
    repeat (Did (visit containVisit)) k1 ++
    [Did (visit trVisit);
     Did (visit errorCorrectVisit); Did (writeASQG "afterEC.asqg.gz");
     Did (visit remodelVisit); Did (writeASQG "afterRM.asqg.gz")] ++
    repeat (Did (visit containVisit)) k2 ++
    [Did (visit trVisit);
     Did (writeASQG "postmod.asqg.gz"); Did simplify;
     Did (renameVertices "contig-"); Did (writeASQG "final.asqg")].
Proof.
  destruct (@snapshots_after_their_stage Example.platform Example.api
              (opt.set_asqgOutfile "final.asqg"
                 (opt.set_bRemodelGraph true
                    (opt.set_bCorrectReads true opt.statics))) 10)
    as (k1 & k2 & k3 & _ & Hret).
  exists k1, k2. eexists. split; [vm_compute; reflexivity | ].
  rewrite (Hret _ ltac:(vm_compute; reflexivity)). cbn.
  rewrite <- !app_assoc. reflexivity.
Defined.

(** C7, as stated, fails: an unknown option followed by --help prints
    the usage text and exits with 0. *)
Lemma unknown_option_then_help_exits_0 :
  usage_error Run.bogus_help = true /\
  Run.main Run.bogus_help 10 =
    Exits 0 [Cout (@ASSEMBLE_USAGE_MESSAGE Example.platform)].
Proof. split; reflexivity. Qed.

(** C8, as stated, fails: with the validate flag, containment removal
    and transitive reduction are applied before any validation. *)
Lemma stages_run_without_validation :
  opt.bValidate (opt.set_bValidate true opt.statics) = true /\
  exists w,
    Run.asm (opt.set_bValidate true opt.statics) 10 = Ok tt w /\
    stages_checked false (calls (log w)) = false.
Proof.
  split; [reflexivity | ].
  eexists. split; vm_compute; reflexivity.
Qed.

(** ** Further runs of the example instances *)

Lemma defaults_of_absent_options_witness :
  exists o,
    @parseAssembleOptions Example.platform Example.api Run.plain opt.statics
      = Parsed o /\
    opt.outFile o = "contigs.fa"%string /\ opt.numTrimRounds o = 3 /\
    opt.resolveSmallRepeatLen o = -1.
Proof.
  eexists. split; [vm_compute; reflexivity | ].
  pose proof (@defaults_of_absent_options Example.platform Example.api
                Run.plain _ eq_refl) as H.
  split; [apply H; reflexivity | ].
  split; [reflexivity | apply H; reflexivity].
Defined.

Lemma switches_follow_options_witness :
  exists o,
    @parseAssembleOptions Example.platform Example.api Run2.verbose_exact
      opt.statics = Parsed o /\
    opt.bExact o = true /\ opt.bSmoothGraph o = false.
Proof.
  eexists. split; [vm_compute; reflexivity | ].
  pose proof (@switches_follow_options Example.platform Example.api
                Run2.verbose_exact _ eq_refl) as H.
  split; [apply H | apply H].
Defined.

Lemma verbose_counts_v_witness :
  exists o,
    @parseAssembleOptions Example.platform Example.api Run2.verbose_exact
      opt.statics = Parsed o /\
    opt.verbose o = 2.
Proof.
  eexists. split; [vm_compute; reflexivity | ].
  apply (@verbose_counts_v Example.platform Example.api
           Run2.verbose_exact _ eq_refl).
Defined.

Lemma first_help_or_version_decides_witness :
  Run.main Run2.bogus_version_help 0 =
  Exits 0 [Cout (@ASSEMBLE_VERSION_MESSAGE Example.platform)].
Proof.
  apply (@first_help_or_version_decides Example.platform Example.api
           [Run.item "?" None] [Run.item OPT_HELP None]
           (Run.item OPT_VERSION None) [] 0 eq_refl eq_refl).
Defined.

Lemma example_containment_converges :
  forall g, exists n,
    @do_hasContainment Example.api
      (Nat.iter n (@after Example.api (visit containVisit)) g) = false.
Proof.
  intros [cnt r]. exists cnt.
  assert (H : forall n, Nat.iter n (@after Example.api (visit containVisit))
                          (cnt, r) = ((cnt - n)%nat, r)).
  { induction n as [|n IH].
    - cbn. now rewrite Nat.sub_0_r.
    - rewrite Nat.iter_succ, IH. cbn. now rewrite Nat.sub_succ_r. }
  rewrite H, Nat.sub_diag. reflexivity.
Defined.

Lemma example_small_repeats_converge :
  forall len g, exists n,
    @returned Example.api (visit (smallRepeatVisit len))
      (Nat.iter n (@after Example.api (visit (smallRepeatVisit len))) g)
    = false.
Proof.
  intros len [cnt r]. exists r.
  assert (H : forall n,
             Nat.iter n (@after Example.api (visit (smallRepeatVisit len)))
               (cnt, r) = (cnt, (r - n)%nat)).
  { induction n as [|n IH].
    - cbn. now rewrite Nat.sub_0_r.
    - rewrite Nat.iter_succ, IH. cbn. now rewrite Nat.sub_succ_r. }
  rewrite H, Nat.sub_diag. reflexivity.
Defined.

Lemma assemble_returns_witness :
  exists n w, forall fuel, (n <= fuel)%nat ->
    Run.asm (opt.set_resolveSmallRepeatLen 5 opt.statics) fuel = Ok tt w.
Proof.
  apply (@assemble_returns Example.platform Example.api
           example_containment_converges example_small_repeats_converge).
Defined.

Lemma unremovable_containment_never_returns_witness :
  exists w,
    @assemble Example.platform Stuck.api opt.statics 3 = OutOfFuel w /\
    calls (log w) =
    [Did printMemSize; Did (visit statsVisit);
     Got hasContainment true; Did (visit containVisit);
     Got hasContainment true; Did (visit containVisit);
     Got hasContainment true; Did (visit containVisit)].
Proof.
  apply (@unremovable_containment_never_returns Example.platform Stuck.api
           opt.statics 3 (fun g H => H) eq_refl).
Defined.

Lemma core_pipeline_by_default_witness :
  core_only (options Run2.verbose_exact) = true /\
  exists tr k,
    Run.main Run2.verbose_exact 10 = Returns 0 tr /\
    filter is_stage_or_snapshot (calls tr) =
    repeat (Did (visit containVisit)) k ++
    [Did (visit trVisit); Did (writeASQG "postmod.asqg.gz"); Did simplify;
     Did (renameVertices "contig-")].
Proof.
  split; [reflexivity | ]. eexists.
  destruct (@core_pipeline_by_default Example.platform Example.api
              Run2.verbose_exact 10 0 _ eq_refl
              ltac:(vm_compute; reflexivity)) as [k Hk].
  exists k. split; [vm_compute; reflexivity | exact Hk].
Defined.

Lemma history_item_text_injective_witness :
  SearchHistory.put Run2.item5A = "-12,A"%string /\
  Run2.item5A = {| SearchHistory.pos := -12; SearchHistory.base := "A" |}.
Proof.
  split; [reflexivity | ].
  apply history_item_text_injective. reflexivity.
Defined.
